(** * PathCORE-T analysis: gene signatures, per-model processing and fan-out

    A shallow embedding of the parts of the PathCORE-T analysis scripts that
    the specification makes claims about:

    - [constants/gene_signature_definitions.py]
                              (modules [GeneSignature], [GeneSignature64])
    - [web_initialize_db.py], [convert_to_gene_object_ids] (module [WebDb])
    - [data/get_annotations_from_Tribe.py], [get_terms]    (module [Tribe])
    - [1.analysis_scripts/build_co_occurrence_network.py]  (module [Network])
    - [constants/shorten_pathway_names.py]                 (module [Shorten])
    - [data/get_PID_pathway_definitions.py]      (module [PidDefinitions])
    - [web_edge_page_data.py]                          (module [EdgePage])

    The definitions come first; the properties follow in the modules
    [SignatureFacts], [Signature64Facts], [WebDbFacts], [TribeFacts],
    [ProcessFacts], [ParallelFacts] and [ScriptFacts], and in the modules
    after them.

    Weights are float64 in the scripts.  The gene signature rules are
    embedded twice.  [Float64], [Pandas64] and [GeneSignature64] follow the
    binary64 arithmetic of the scripts bit for bit; what is proved about
    thresholds, about vectors of equal weights and about NaN is proved
    there.  [Pandas] and [GeneSignature] idealise the weights as real
    numbers, with [None] in [option R] for NaN; they serve where rounding
    plays no part: in the control flow of [process] and of the script, and
    for the two properties of [SignatureBounds].  The scores of [EdgePage]
    are real numbers as well; what is proved there is about counts, order
    and errors, not about the digits of a score. *)

From Stdlib Require Import Reals Lra Lia ZArith Ascii SpecFloat.
From stdpp Require Import gmap strings list fin_maps fin_sets pretty sorting.

(** ** Python exceptions and the error monad *)

Inductive exn :=
| ValueError (msg : string)
| KeyError (key : string)
| NameError (name : string)
| TypeError (msg : string)
| Raised (what : string).   (* raised inside a collaborator library *)

#[global] Instance exn_ret : MRet (sum exn) := λ A x, inr x.
#[global] Instance exn_bind : MBind (sum exn) := λ A B k m,
  match m with inl e => inl e | inr a => k a end.

(** ** pandas Series of floats *)

Module Pandas.

(** A float that may be NaN. *)
Abbreviation float := (option R).

(** A [pandas.Series(float)]: index labels (gene identifiers) with their
    values, in row order.  The values are real numbers. *)
Abbreviation Series := (list (string * R)).

Definition index (s : Series) : list string := s.*1.
Definition values (s : Series) : list R := s.*2.

Definition Rsum (l : list R) : R := foldr Rplus 0%R l.

(** NaN-propagating arithmetic and NaN-aware comparisons: every comparison
    with NaN is false. *)
Definition fadd (x y : float) : float :=
  match x, y with Some a, Some b => Some (a + b)%R | _, _ => None end.
Definition fsub (x y : float) : float :=
  match x, y with Some a, Some b => Some (a - b)%R | _, _ => None end.
Definition fmul (x y : float) : float :=
  match x, y with Some a, Some b => Some (a * b)%R | _, _ => None end.

Definition fge (w : R) (t : float) : Prop :=
  match t with Some b => (w >= b)%R | None => False end.
Definition fle (w : R) (t : float) : Prop :=
  match t with Some b => (w <= b)%R | None => False end.

#[global] Instance fge_dec w t : Decision (fge w t) :=
  match t with Some b => Rge_dec w b | None => right (λ H : False, H) end.
#[global] Instance fle_dec w t : Decision (fle w t) :=
  match t with Some b => Rle_dec w b | None => right (λ H : False, H) end.

(** [Series.mean()]: NaN on an empty Series. *)
Definition mean (s : Series) : float :=
  match s with
  | [] => None
  | _ => Some (Rsum (values s) / INR (length s))%R
  end.

(** [Series.std()]: the sample standard deviation (ddof = 1), NaN when the
    Series has fewer than two values. *)
Definition std (s : Series) : float :=
  match mean s with
  | None => None
  | Some m =>
      if decide (length s < 2) then None
      else Some (sqrt (Rsum ((λ x, (x - m) * (x - m))%R <$> values s)
                       / INR (length s - 1)))
  end.

(** [set(s[mask].index)], where the mask is an elementwise comparison of the
    values. *)
Definition select (P : R → Prop) `{!∀ w, Decision (P w)} (s : Series)
  : gset string :=
  list_to_set (index (filter (λ row, P row.2) s)).

End Pandas.

(** ** constants/gene_signature_definitions.py *)

Module GeneSignature.
Import Pandas.

(** The type of the partial functions handed to [process]. *)
Abbreviation signature_function := (Series → gset string * gset string).

(** [_gene_signature] of [define_eADAGE_gene_signature]. *)
Definition eADAGE_gene_signature
    (feature_weight_vector : Series) (std_arg : R)
  : gset string * gset string :=
  let mean := mean feature_weight_vector in
  let cutoff := fmul (Some std_arg) (std feature_weight_vector) in
  let positive_gene_signature :=
    select (λ w, fge w (fadd mean cutoff)) feature_weight_vector in
  let negative_gene_signature :=
    select (λ w, fle w (fsub mean cutoff)) feature_weight_vector in
  (positive_gene_signature, negative_gene_signature).

(** [define_eADAGE_gene_signature(std)].  [float(std)] is the identity on a
    float; the cast of the command-line string happens where the script
    calls the definition, see [Network.call_signature_definition]. *)
Definition define_eADAGE_gene_signature (std_arg : R) : signature_function :=
  λ feature_weight_vector,
    eADAGE_gene_signature feature_weight_vector std_arg.

(** [_gene_signature] of [define_NMF_gene_signature]. *)
Definition NMF_gene_signature
    (feature_weight_vector : Series) (std_arg : R)
  : gset string * gset string :=
  let mean := mean feature_weight_vector in
  let cutoff := fmul (Some std_arg) (std feature_weight_vector) in
  let positive_gene_signature :=
    select (λ w, fge w (fadd mean cutoff)) feature_weight_vector in
  (positive_gene_signature, ∅).

Definition define_NMF_gene_signature (std_arg : R) : signature_function :=
  λ feature_weight_vector,
    NMF_gene_signature feature_weight_vector std_arg.

(** [GENE_SIGNATURE_DEFINITIONS] *)
Definition GENE_SIGNATURE_DEFINITIONS : gmap string (R → signature_function) :=
  <["eADAGE" := define_eADAGE_gene_signature]>
    (<["NMF" := define_NMF_gene_signature]> ∅).

End GeneSignature.

(** ** binary64 arithmetic *)

Module Float64.

(** An IEEE 754 binary64 value: a signed zero, a signed infinity, NaN, or
    [(-1)^s * m * 2^e].  The operations are those of the specification of
    floating-point arithmetic in the standard library, at precision 53 and
    with the exponent of the infinities at 1024. *)
Abbreviation float := spec_float.

Definition prec : Z := 53.
Definition emax : Z := 1024.

(** [x + y], [x - y], [x * y], [x / y] and [sqrt] on the float64 values
    of numpy: rounded to nearest, ties to even, with an infinity or NaN
    where the result is no number. *)
Definition add : float → float → float := SFadd prec emax.
Definition sub : float → float → float := SFsub prec emax.
Definition mul : float → float → float := SFmul prec emax.
Definition div : float → float → float := SFdiv prec emax.
Definition sqrt : float → float := SFsqrt prec emax.

Definition NaN : float := S754_nan.
Definition zero : float := S754_zero false.

(** The float nearest to an integer: [1.0] is [of_Z 1], and the literal
    [2.5] is [div (of_Z 5) (of_Z 2)]. *)
Definition of_Z (n : Z) : float := binary_normalize prec emax n 0 false.
Definition of_nat (n : nat) : float := of_Z (Z.of_nat n).

(** [x <= y], [x >= y] and [x < y]: false when either side is NaN. *)
Definition leb (x y : float) : bool := SFleb x y.
Definition geb (x y : float) : bool := SFleb y x.
Definition ltb (x y : float) : bool := SFltb x y.

Definition is_nan (x : float) : bool :=
  match x with S754_nan => true | _ => false end.
Definition is_zero (x : float) : bool :=
  match x with S754_zero _ => true | _ => false end.
Definition is_finite (x : float) : bool :=
  match x with S754_zero _ | S754_finite _ _ _ => true | _ => false end.

End Float64.

(** ** pandas Series of binary64 values *)

Module Pandas64.
Import Float64.

(** A [pandas.Series(float)]: index labels (gene identifiers) with their
    values, in row order. *)
Abbreviation Series := (list (string * float)).

Definition index (s : Series) : list string := s.*1.
Definition values (s : Series) : list float := s.*2.

(** [values.sum()]: the values are added to 0.0, here one after the other
    from the left, as numpy does for a short vector.  (For a long vector
    numpy adds blocks of partial sums, which can round otherwise.  The
    theorems of [Signature64Facts] use the mean and the standard deviation
    only through their values, and the sum only where every term is 0.) *)
Definition sum (l : list float) : float := foldl add zero l.

(** With [skipna], the default, pandas puts 0 where a value is NaN and
    counts the values that are not NaN. *)
Definition fillna (x : float) : float := if is_nan x then zero else x.

Definition count (s : Series) : nat :=
  length (filter (λ x, is_nan x = false) (values s)).

(** [Series.mean()], [nanops.nanmean]: the sum divided by the count, NaN
    when no value is left. *)
Definition mean (s : Series) : float :=
  if decide (count s = 0) then NaN
  else div (sum (fillna <$> values s)) (of_nat (count s)).

(** [Series.var()], [nanops.nanvar] with [ddof = 1]: NaN when the count
    is at most [ddof]; otherwise the squares of [avg - x], 0 where [x] is
    NaN, are added and divided by [count - ddof]. *)
Definition var (s : Series) : float :=
  if decide (count s ≤ 1) then NaN
  else
    let d := sub (of_nat (count s)) (of_Z 1) in
    let avg := div (sum (fillna <$> values s)) (of_nat (count s)) in
    let sqr :=
      (λ x, if is_nan x then zero
            else mul (sub avg x) (sub avg x)) <$> values s in
    div (sum sqr) d.

(** [Series.std()]: the sample standard deviation, [sqrt] of [var]. *)
Definition std (s : Series) : float := sqrt (var s).

(** [set(s[mask].index)], where the mask is an elementwise comparison of the
    values. *)
Definition select (P : float → bool) (s : Series) : gset string :=
  list_to_set (index (filter (λ row, P row.2 = true) s)).

End Pandas64.

(** ** constants/gene_signature_definitions.py, in binary64 *)

Module GeneSignature64.
Import Float64 Pandas64.

Abbreviation signature_function := (Series → gset string * gset string).

(** [_gene_signature] of [define_eADAGE_gene_signature]. *)
Definition eADAGE_gene_signature
    (feature_weight_vector : Series) (std_arg : float)
  : gset string * gset string :=
  let mean := mean feature_weight_vector in
  let cutoff := mul std_arg (std feature_weight_vector) in
  let positive_gene_signature :=
    select (λ w, geb w (add mean cutoff)) feature_weight_vector in
  let negative_gene_signature :=
    select (λ w, leb w (sub mean cutoff)) feature_weight_vector in
  (positive_gene_signature, negative_gene_signature).

(** [define_eADAGE_gene_signature(std)], for [std] a float. *)
Definition define_eADAGE_gene_signature (std_arg : float)
  : signature_function :=
  λ feature_weight_vector,
    eADAGE_gene_signature feature_weight_vector std_arg.

(** [_gene_signature] of [define_NMF_gene_signature]. *)
Definition NMF_gene_signature
    (feature_weight_vector : Series) (std_arg : float)
  : gset string * gset string :=
  let mean := mean feature_weight_vector in
  let cutoff := mul std_arg (std feature_weight_vector) in
  let positive_gene_signature :=
    select (λ w, geb w (add mean cutoff)) feature_weight_vector in
  (positive_gene_signature, ∅).

(** [define_NMF_gene_signature(std)], for [std] a float. *)
Definition define_NMF_gene_signature (std_arg : float)
  : signature_function :=
  λ feature_weight_vector,
    NMF_gene_signature feature_weight_vector std_arg.

End GeneSignature64.

(** ** Python strings *)

Module Str.

(** [s.split(sep)] for a one-character separator: every occurrence of the
    separator splits, so the empty string gives one empty field. *)
Fixpoint split (sep : ascii) (s : string) : list string :=
  match s with
  | EmptyString => [EmptyString]
  | String c rest =>
      if Ascii.eqb c sep then EmptyString :: split sep rest
      else match split sep rest with
           | field :: fields => String c field :: fields
           | [] => [String c EmptyString]
           end
  end.

Definition is_ascii_digit (c : ascii) : bool :=
  let n := nat_of_ascii c in
  Nat.leb 48 n && Nat.leb n 57.

Fixpoint all_digits (s : string) : bool :=
  match s with
  | EmptyString => true
  | String c rest => is_ascii_digit c && all_digits rest
  end.

(** [s.isdigit()] on ASCII text: at least one character, all of them
    digits. *)
Definition isdigit (s : string) : bool :=
  match s with
  | EmptyString => false
  | _ => all_digits s
  end.

End Str.

(** ** web_initialize_db.py *)

Module WebDb.

(** The values that reach [convert_to_gene_object_ids]: a cell of a metadata
    table read by pandas (a string, or NaN when the cell is empty), a gene
    set, or anything else. *)
Inductive pyobj :=
| PyStr (s : string)
| PySet (s : gset string)
| PyNaN
| PyNone
| PyList (l : list string).

Section convert.
Context {ObjectId : Type}.

(** The loop body: [if gene in gene_object_id_map: ids_list.append(...)]. *)
Definition append_id (gene_object_id_map : gmap string ObjectId)
    (ids_list : list ObjectId) (gene : string) : list ObjectId :=
  match gene_object_id_map !! gene with
  | Some oid => ids_list ++ [oid]
  | None => ids_list
  end.

(** Iteration over a Python set visits every element once, in an order
    that the language does not fix; [elements] is one such order.  What
    depends on the order is stated with [convert_in_order] below. *)
Definition convert_to_gene_object_ids
    (gene_set : pyobj) (gene_object_id_map : gmap string ObjectId)
  : list ObjectId :=
  let gene_set :=
    match gene_set with
    | PyStr s => PySet (list_to_set (Str.split ";"%char s))
    | _ => gene_set
    end in
  match gene_set with
  | PySet genes => foldl (append_id gene_object_id_map) [] (elements genes)
  | _ => []
  end.

(** The iteration orders of a set: every element once.  Two sets with the
    same elements need not be iterated in the same order. *)
Definition iteration_of (genes : gset string) (order : list string) : Prop :=
  NoDup order ∧ ∀ gene, gene ∈ order ↔ gene ∈ genes.

(** The loop of [convert_to_gene_object_ids] over the set in a given
    iteration order. *)
Definition convert_in_order
    (order : list string) (gene_object_id_map : gmap string ObjectId)
  : list ObjectId :=
  foldl (append_id gene_object_id_map) [] order.

End convert.

(** The genes that an input names, if it is a string or a set. *)
Definition named_genes (o : pyobj) : option (gset string) :=
  match o with
  | PyStr s => Some (list_to_set (Str.split ";"%char s))
  | PySet genes => Some genes
  | _ => None
  end.

End WebDb.

(** ** data/get_annotations_from_Tribe.py *)

Module Tribe.

(** The decoded JSON of a Tribe geneset: the tip version carries the genes. *)
Record version := { genes : list string }.
Record geneset := { title : string; tip : option version }.

(** [new_geneset], a dict with the keys 'title' and 'genes'. *)
Record simplified_geneset := { new_title : string; new_genes : list string }.

Definition limit : nat := 2000.

(** One iteration of the loop over [genesets]; the state is
    [(simplified_genesets, count)]. *)
Definition get_terms_step (st : list simplified_geneset * nat) (g : geneset)
  : list simplified_geneset * nat :=
  let '(simplified_genesets, count) := st in
  let count := count + 1 in
  match tip g with
  | None => (simplified_genesets, count)
  | Some t =>
      if (100 <? length (genes t)) || (length (genes t) <? 5)
      then (simplified_genesets, count)
      else (simplified_genesets
              ++ [{| new_title := title g; new_genes := genes t |}], count)
  end.

(** [get_terms], from the decoded response [result['objects']] on; the
    second component tells whether 'Need to increase the limit.' is
    printed. *)
Definition get_terms_run (genesets : list geneset)
  : list simplified_geneset * bool :=
  let '(simplified_genesets, count) := foldl get_terms_step ([], 0) genesets in
  (simplified_genesets, count =? limit).

Definition get_terms (genesets : list geneset) : list simplified_geneset :=
  (get_terms_run genesets).1.

(** What one geneset of the response contributes to the result. *)
Definition kept (g : geneset) : option simplified_geneset :=
  match tip g with
  | None => None
  | Some t =>
      if (100 <? length (genes t)) || (length (genes t) <? 5) then None
      else Some {| new_title := title g; new_genes := genes t |}
  end.

End Tribe.

(** ** 1.analysis_scripts/build_co_occurrence_network.py *)

Module Network.
Import Pandas GeneSignature.

(** *** Data *)

(** A cell of a results table. *)
Inductive cell :=
| CStr (s : string)
| CInt (z : Z)
| CFloat (x : R).

(** A row of a [pandas.DataFrame] maps column names to cells; a table is the
    list of its rows in index order. *)
Abbreviation row := (gmap string cell).
Abbreviation DataFrame := (list row).

(** A weight matrix: the feature columns, in column order, each a Series
    over the genes. *)
Abbreviation WeightMatrix := (list (Z * Series)).

Abbreviation PathwayDefinitions := (gmap string (gset string)).

(** The metadata dict that the enrichment functions return on request. *)
Record metadata_info := {
  positive_signature : gset string;
  negative_signature : gset string;
  pathway_definitions : PathwayDefinitions;
}.

(** What the enrichment functions of [pathcore] return: the significant
    pathways of the feature ([None] when there is none) and the metadata
    ([None] stands for every falsy value). *)
Abbreviation enrichment := (option DataFrame * option metadata_info)%type.

(** The dict returned by [process]. *)
Record model_results := {
  filename : string;
  significant_pathways : DataFrame;
  feature_metadata : gmap Z metadata_info;
}.

Fixpoint foldM {A B} (f : A → B → exn + A) (a : A) (l : list B) : exn + A :=
  match l with
  | [] => inr a
  | x :: l => a' ← f a x; foldM f a' l
  end.

(** *** process *)

Section process.
(** The two entry points of the [pathcore] library. *)
Context (pathway_enrichment_with_overlap_correction :
  Series → PathwayDefinitions → signature_function → R → bool → bool
  → exn + enrichment).
Context (pathway_enrichment_no_overlap_correction :
  Series → PathwayDefinitions → signature_function → R → bool
  → exn + enrichment).
(** The module-level name [crosstalk_correction]: [None] while unbound. *)
Context (crosstalk_correction : option bool).

(** Reading the global name. *)
Definition read_crosstalk_correction : exn + bool :=
  match crosstalk_correction with
  | Some b => inr b
  | None => inl (NameError "crosstalk_correction")
  end.

(** [feature_df.loc[:, "feature"] = pd.Series([feature] * len(...))] *)
Definition set_feature (feature : Z) (feature_df : DataFrame) : DataFrame :=
  (λ r : row, <["feature" := CInt feature]> r) <$> feature_df.

(** The body of [for feature in weight_matrix], for a given way of deciding
    the branch: iterating the DataFrame gives the column labels and
    [weight_matrix[feature]] is the column of that label, here the pair
    [column].  ([n_genes], read from [weight_matrix.shape] before the loop,
    is not used.) *)
Definition process_feature (branch : exn + bool)
    (pathway_definitions : PathwayDefinitions)
    (partial_function_signature : signature_function)
    (alpha : R) (correct_all_genes metadata : bool)
    (st : DataFrame * gmap Z metadata_info) (column : Z * Series)
  : exn + (DataFrame * gmap Z metadata_info) :=
  let '(significant_pathways_df, feature_metadata) := st in
  let '(feature, weights) := column in
  with_correction ← branch;
  '(feature_df, additional) ←
    (if with_correction : bool then
       pathway_enrichment_with_overlap_correction
         weights pathway_definitions partial_function_signature
         alpha correct_all_genes metadata
     else
       pathway_enrichment_no_overlap_correction
         weights pathway_definitions partial_function_signature
         alpha metadata);
  match feature_df with
  | Some feature_df =>
      let significant_pathways_df :=
        significant_pathways_df ++ set_feature feature feature_df in
      let feature_metadata :=
        match additional with
        | Some info => <[feature := info]> feature_metadata
        | None => feature_metadata
        end in
      mret (significant_pathways_df, feature_metadata)
  | None => mret (significant_pathways_df, feature_metadata)
  end.

Definition process_with (branch : exn + bool)
    (current_weight_matrix : string * WeightMatrix)
    (pathway_definitions : PathwayDefinitions)
    (partial_function_signature : signature_function)
    (alpha : R) (correct_all_genes metadata : bool)
  : exn + model_results :=
  let '(name, weight_matrix) := current_weight_matrix in
  '(significant_pathways_df, feature_metadata) ←
    foldM (process_feature branch pathway_definitions
             partial_function_signature alpha correct_all_genes metadata)
          ([], ∅) weight_matrix;
  mret {| filename := name;
          significant_pathways := significant_pathways_df;
          feature_metadata := feature_metadata |}.

(** [process] as the script has it: the loop tests the global name
    [crosstalk_correction]; the parameter [overlap_correction] is not
    read. *)
Definition process
    (current_weight_matrix : string * WeightMatrix)
    (pathway_definitions : PathwayDefinitions)
    (partial_function_signature : signature_function)
    (alpha : R) (overlap_correction correct_all_genes metadata : bool)
  : exn + model_results :=
  process_with read_crosstalk_correction current_weight_matrix
    pathway_definitions partial_function_signature alpha
    correct_all_genes metadata.

(** [process] as its docstring describes it: the branch is decided by the
    parameter [overlap_correction]. *)
Definition process_documented
    (current_weight_matrix : string * WeightMatrix)
    (pathway_definitions : PathwayDefinitions)
    (partial_function_signature : signature_function)
    (alpha : R) (overlap_correction correct_all_genes metadata : bool)
  : exn + model_results :=
  process_with (inr overlap_correction) current_weight_matrix
    pathway_definitions partial_function_signature alpha
    correct_all_genes metadata.

(** The enrichment of one feature column on the branch [b]. *)
Definition feature_enrichment
    (pathway_definitions : PathwayDefinitions)
    (partial_function_signature : signature_function)
    (alpha : R) (correct_all_genes metadata : bool)
    (b : bool) (weights : Series) : exn + enrichment :=
  if b then
    pathway_enrichment_with_overlap_correction
      weights pathway_definitions partial_function_signature
      alpha correct_all_genes metadata
  else
    pathway_enrichment_no_overlap_correction
      weights pathway_definitions partial_function_signature
      alpha metadata.

End process.

(** The rows that a feature column adds to the table of its model, given
    what the enrichment returned for it. *)
Definition rows_of (column : Z * Series) (out : enrichment) : DataFrame :=
  match out.1 with
  | Some feature_df => set_feature column.1 feature_df
  | None => []
  end.

(** *** joblib.Parallel *)

(** [joblib] is a third-party library.  Its [Parallel(n_jobs)(tasks)] is
    modelled from its documented contract: the tasks are numbered in
    submission order and handed out to [n_jobs] workers, every worker runs
    its tasks, the outcomes are put back in submission order, and the call
    raises when a task has raised.  Which of several exceptions is raised
    depends on timing in the library; the model takes the one of the
    earliest task.  [n_jobs = 0] is rejected by the library. *)

Section Parallel.
Context {A B : Type} (f : A → exn + B).

Definition submit (xs : list A) : list (nat * A) := imap pair xs.

(** Worker [w] of [n_jobs] takes the tasks whose number is [w] modulo
    [n_jobs]. *)
Definition dispatch (n_jobs : nat) (tasks : list (nat * A))
  : list (list (nat * A)) :=
  (λ w, filter (λ t : nat * A, t.1 `mod` n_jobs = w) tasks) <$> seq 0 n_jobs.

Definition run_worker (batch : list (nat * A)) : list (nat * (exn + B)) :=
  (λ t : nat * A, (t.1, f t.2)) <$> batch.

(** The outcome of task [i] among the finished ones. *)
Definition retrieve (finished : list (nat * (exn + B))) (i : nat)
  : option (exn + B) :=
  (λ found : nat * (nat * (exn + B)), found.2.2)
    <$> list_find (λ d : nat * (exn + B), d.1 = i) finished.

Fixpoint collect (slots : list (option (exn + B))) : exn + list B :=
  match slots with
  | [] => inr []
  | None :: _ => inl (Raised "task lost")
  | Some outcome :: slots => y ← outcome; ys ← collect slots; mret (y :: ys)
  end.

Definition Parallel (n_jobs : nat) (xs : list A) : exn + list B :=
  if decide (n_jobs = 0)
  then inl (ValueError "n_jobs == 0 in Parallel has no meaning")
  else
    let finished := mjoin (run_worker <$> dispatch n_jobs (submit xs)) in
    collect (retrieve finished <$> seq 0 (length xs)).

(** Processing the same tasks one after the other, in a loop. *)
Definition sequential (xs : list A) : exn + list B := mapM f xs.

End Parallel.

(** *** The script body *)

(** What the script does to the outside world, in order. *)
Inductive event :=
| EvMakedirs (path : string)
| EvLoadPathwayDefinitions (path : string)
| EvListdir (path : string)
| EvLoadWeightMatrix (path : string)
| EvParallel (n_jobs n_models : nat).

(** A run of the script: the events so far and how it ended. *)
Definition IO (A : Type) : Type := list event * (exn + A).

#[global] Instance IO_ret : MRet IO := λ A x, ([], inr x).
#[global] Instance IO_bind : MBind IO := λ A B k m,
  match m with
  | (tr, inl e) => (tr, inl e)
  | (tr, inr a) => let '(tr', r) := k a in (tr ++ tr', r)
  end.

Definition raise {A} (e : exn) : IO A := ([], inl e).
Definition emit (ev : event) : IO unit := ([ev], inr tt).
Definition lift {A} (m : exn + A) : IO A := ([], m).

Fixpoint forM {A B} (f : A → IO B) (l : list A) : IO (list B) :=
  match l with
  | [] => mret []
  | x :: l => y ← f x; ys ← forM f l; mret (y :: ys)
  end.

(** A value of the dict returned by [docopt]. *)
Inductive argval :=
| AStr (s : string)
| ABool (b : bool)
| ANone.

Definition getitem (arguments : gmap string argval) (key : string)
  : IO argval :=
  match arguments !! key with
  | Some v => mret v
  | None => raise (KeyError key)
  end.

Definition truthy (v : argval) : bool :=
  match v with
  | AStr s => negb (String.eqb s "")
  | ABool b => b
  | ANone => false
  end.

(** ["{0}".format(v)] *)
Definition format (v : argval) : string :=
  match v with
  | AStr s => s
  | ABool true => "True"
  | ABool false => "False"
  | ANone => "None"
  end.

Definition as_str (v : argval) : IO string :=
  match v with
  | AStr s => mret s
  | _ => raise (TypeError "expected str")
  end.

Definition as_optional_str (v : argval) : IO (option string) :=
  match v with
  | AStr s => mret (Some s)
  | ANone => mret None
  | ABool _ => raise (TypeError "expected str")
  end.

(** The collaborators of the script: the Python runtime, the file system
    and the libraries [utils] and [pathcore]. *)
Record collaborators := {
  py_int : string → option Z;        (* int(s); None: ValueError *)
  py_float : string → option R;      (* float(s); None: ValueError *)
  cpu_count : nat;
  os_path_join : string → string → string;
  os_listdir : string → exn + list string;
  SHORTEN_PATHWAY_NAMES : gmap string (string → string);
  load_pathway_definitions :
    string → option (string → string) → exn + PathwayDefinitions;
  load_weight_matrix :
    string → Z → Z → option string → exn + WeightMatrix;
  pathway_enrichment_with_overlap_correction :
    Series → PathwayDefinitions → signature_function → R → bool → bool
    → exn + enrichment;
  pathway_enrichment_no_overlap_correction :
    Series → PathwayDefinitions → signature_function → R → bool
    → exn + enrichment;
}.

Definition invalid_literal_message (s : string) : string :=
  "invalid literal for int() with base 10: '" +:+ s +:+ "'".

Definition could_not_convert_message (s : string) : string :=
  "could not convert string to float: '" +:+ s +:+ "'".

Definition unknown_signature_message (signature : argval) : string :=
  "The gene signature definition specified (" +:+ format signature +:+
  ") is not in the `GENE_SIGNATURE_DEFINITIONS` dict. Please include your definition in `gene_signature_definitions.py` before running this script.".

Definition unknown_shorten_message (key : argval) : string :=
  "The shorten pathway function specified (" +:+ format key +:+
  ") is not in the `SHORTEN_PATHWAY_NAMES` dict. Please include your definition in `shorten_pathway_names.py` before running thisscript.".

(** [key in d] for a dict with string keys. *)
Definition contains {V} (d : gmap string V) (key : argval) : bool :=
  match key with
  | AStr s => bool_decide (is_Some (d !! s))
  | _ => false
  end.

Section script.
Context (c : collaborators).

Definition int (v : argval) : IO Z :=
  match v with
  | AStr s =>
      match py_int c s with
      | Some z => mret z
      | None => raise (ValueError (invalid_literal_message s))
      end
  | ABool b => mret (if b then 1%Z else 0%Z)
  | ANone => raise (TypeError "int() argument must be a string or a number")
  end.

Definition float (v : argval) : IO R :=
  match v with
  | AStr s =>
      match py_float c s with
      | Some x => mret x
      | None => raise (ValueError (could_not_convert_message s))
      end
  | ABool b => mret (if b then 1%R else 0%R)
  | ANone => raise (TypeError "float() argument must be a string or a number")
  end.

(** [which_signature( *gene_signature_args)]: both definitions take exactly
    one argument and cast it with [float]. *)
Definition call_signature_definition
    (which_signature : R → signature_function)
    (gene_signature_args : list string) : IO signature_function :=
  match gene_signature_args with
  | [std_arg] => std_value ← float (AStr std_arg); mret (which_signature std_value)
  | _ => raise (TypeError "takes 1 positional argument")
  end.

(** The [with Parallel(n_jobs=n_cores) ...] statement: [process] over every
    loaded weight matrix with the arguments of [process_model_args].  The
    name [crosstalk_correction] is bound at module level by then. *)
Definition run_models (n_cores : nat)
    (weight_matrices : list (string * WeightMatrix))
    (pathway_definitions : PathwayDefinitions)
    (partial_function_signature : signature_function)
    (alpha : R) (crosstalk_correction correct_all_genes metadata : bool)
  : exn + list model_results :=
  Parallel
    (λ weight_matrix_info,
       process (pathway_enrichment_with_overlap_correction c)
               (pathway_enrichment_no_overlap_correction c)
               (Some crosstalk_correction)
               weight_matrix_info pathway_definitions
               partial_function_signature alpha
               crosstalk_correction correct_all_genes metadata)
    n_cores weight_matrices.

(** The same models processed one after the other. *)
Definition run_models_sequentially
    (weight_matrices : list (string * WeightMatrix))
    (pathway_definitions : PathwayDefinitions)
    (partial_function_signature : signature_function)
    (alpha : R) (crosstalk_correction correct_all_genes metadata : bool)
  : exn + list model_results :=
  sequential
    (λ weight_matrix_info,
       process (pathway_enrichment_with_overlap_correction c)
               (pathway_enrichment_no_overlap_correction c)
               (Some crosstalk_correction)
               weight_matrix_info pathway_definitions
               partial_function_signature alpha
               crosstalk_correction correct_all_genes metadata)
    weight_matrices.

(** The body of [if __name__ == "__main__":] up to the end of the parallel
    section; [arguments] is the dict returned by [docopt]. *)
Definition main (arguments : gmap string argval)
  : IO (list model_results) :=
  models_directory ← getitem arguments "<models-dir>";
  output_directory ← getitem arguments "<output-dir>";
  pathway_definitions_file ← getitem arguments "<pathway-definitions>";
  n_genes ← getitem arguments "<n-genes>" ≫= int;
  n_features ← getitem arguments "--n-features" ≫= int;
  signature ← getitem arguments "--signature";
  _ ← (if contains GENE_SIGNATURE_DEFINITIONS signature then mret ()
       else raise (ValueError (unknown_signature_message signature)));
  which_signature ←
    match signature with
    | AStr name =>
        match GENE_SIGNATURE_DEFINITIONS !! name with
        | Some definition => mret definition
        | None => raise (KeyError name)
        end
    | _ => raise (KeyError (format signature))
    end;
  signature_args ← getitem arguments "--signature-args" ≫= as_str;
  let gene_signature_args := Str.split ";"%char signature_args in
  partial_function_signature ←
    call_signature_definition which_signature gene_signature_args;
  alpha ← getitem arguments "--alpha" ≫= float;
  path_to_genes_file ← getitem arguments "--genes-list";
  substring_to_replace ← getitem arguments "--replace";
  crosstalk_correction ← getitem arguments "--crosstalk-correction";
  correct_all_genes ← getitem arguments "--all-genes";
  output_directory ← as_str output_directory;
  let network_output_directory := os_path_join c output_directory "networks" in
  _ ← emit (EvMakedirs output_directory);
  _ ← emit (EvMakedirs network_output_directory);
  metadata ← getitem arguments "--metadata";
  _ ← (if truthy metadata
       then emit (EvMakedirs (os_path_join c output_directory "metadata"))
       else mret ());
  n_cores_arg ← getitem arguments "--n-cores" ≫= as_str;
  n_cores ←
    (if Str.isdigit n_cores_arg
     then z ← int (AStr n_cores_arg); mret (Z.to_nat z)
     else mret (cpu_count c - 1));
  shorten_function_key ← getitem arguments "--shorten";
  shorten_pathway_names ←
    (if truthy shorten_function_key
        && contains (SHORTEN_PATHWAY_NAMES c) shorten_function_key
     then
       match shorten_function_key with
       | AStr key => mret (SHORTEN_PATHWAY_NAMES c !! key)
       | _ => mret None
       end
     else if negb (contains (SHORTEN_PATHWAY_NAMES c) shorten_function_key)
     then
       key ← getitem arguments "shorten_function_key";
       raise (ValueError (unknown_shorten_message key))
     else mret None);
  pathway_definitions_file ← as_str pathway_definitions_file;
  _ ← emit (EvLoadPathwayDefinitions pathway_definitions_file);
  pathway_definitions ←
    lift (load_pathway_definitions c pathway_definitions_file
            shorten_pathway_names);
  models_directory ← as_str models_directory;
  path_to_genes_file ← as_optional_str path_to_genes_file;
  _ ← emit (EvListdir models_directory);
  models ← lift (os_listdir c models_directory);
  weight_matrices ←
    forM (λ model,
            let path_to_model_file := os_path_join c models_directory model in
            _ ← emit (EvLoadWeightMatrix path_to_model_file);
            weight_matrix ←
              lift (load_weight_matrix c path_to_model_file n_features
                      n_genes path_to_genes_file);
            mret (model, weight_matrix))
         models;
  _ ← emit (EvParallel n_cores (length weight_matrices));
  lift (run_models n_cores weight_matrices pathway_definitions
          partial_function_signature alpha
          (truthy crosstalk_correction) (truthy correct_all_genes)
          (truthy metadata)).

End script.

(** *** A small environment for the examples *)

(** Stand-ins for the two entry points of [pathcore]: each reports one
    pathway, named after the entry point, for a feature column of two or
    more genes, nothing for a column of one gene, and raises on a column
    without genes. *)
Definition example_with_correction
  : Series → PathwayDefinitions → signature_function → R → bool → bool
    → exn + enrichment :=
  λ weights _ _ _ _ _,
    match weights with
    | [] => inl (Raised "feature column without genes")
    | [_] => inr (None, None)
    | _ => inr (Some [{["pathway" := CStr "corrected"]}], None)
    end.

Definition example_no_correction
  : Series → PathwayDefinitions → signature_function → R → bool
    → exn + enrichment :=
  λ weights _ _ _ _,
    match weights with
    | [] => inl (Raised "feature column without genes")
    | [_] => inr (None, None)
    | _ => inr (Some [{["pathway" := CStr "uncorrected"]}], None)
    end.

Definition example_collaborators : collaborators := {|
  py_int := λ s, if String.eqb s "5" then Some 5%Z
                 else if String.eqb s "300" then Some 300%Z else None;
  py_float := λ s, if String.eqb s "2.5" then Some (5 / 2)%R
                   else if String.eqb s "0.05" then Some (5 / 100)%R else None;
  cpu_count := 4;
  os_path_join := λ a b, a +:+ "/" +:+ b;
  os_listdir := λ _, inr [];
  SHORTEN_PATHWAY_NAMES := ∅;
  load_pathway_definitions := λ _ _, inr ∅;
  load_weight_matrix := λ _ _ _ _, inr [];
  pathway_enrichment_with_overlap_correction := example_with_correction;
  pathway_enrichment_no_overlap_correction := example_no_correction;
|}.

(** The dict that [docopt] returns for
    [models out pathways.tsv 5 --signature=<signature>]. *)
Definition example_arguments (signature : string) : gmap string argval :=
  list_to_map
    [("<models-dir>", AStr "models"); ("<output-dir>", AStr "out");
     ("<pathway-definitions>", AStr "pathways.tsv"); ("<n-genes>", AStr "5");
     ("--n-features", AStr "300"); ("--signature", AStr signature);
     ("--signature-args", AStr "2.5"); ("--alpha", AStr "0.05");
     ("--genes-list", ANone);
     ("--n-cores", AStr "num. available cores - 1");
     ("--replace", AStr "network"); ("--shorten", ANone);
     ("--overlap-correction", ABool false); ("--all-genes", ABool false);
     ("--metadata", ABool false); ("--help", ABool false)].

(** The keys of the dict that [docopt] builds from the usage text of the
    script: one per positional argument and per option. *)
Definition docopt_keys : gset string :=
  list_to_set
    ["<models-dir>"; "<output-dir>"; "<pathway-definitions>"; "<n-genes>";
     "--n-features"; "--signature"; "--signature-args"; "--alpha";
     "--genes-list"; "--n-cores"; "--replace"; "--shorten";
     "--overlap-correction"; "--all-genes"; "--metadata"; "--help"].

(** The options that take a value and have a default, and the positional
    arguments, are strings in that dict. *)
Definition docopt_strings : list string :=
  ["<models-dir>"; "<output-dir>"; "<pathway-definitions>"; "<n-genes>";
   "--n-features"; "--signature"; "--signature-args"; "--alpha";
   "--n-cores"; "--replace"].

Definition is_str (v : option argval) : bool :=
  match v with Some (AStr _) => true | _ => false end.

Definition docopt_result (arguments : gmap string argval) : bool :=
  bool_decide (dom arguments = docopt_keys)
  && forallb (λ key, is_str (arguments !! key)) docopt_strings.

(** Whether the parallel section was entered in a run. *)
Definition parallel_started (tr : list event) : Prop :=
  ∃ n_jobs n_models, EvParallel n_jobs n_models ∈ tr.

End Network.

(** ** More of Python's strings *)

Module StrOps.

(** [sep.join(fields)] *)
Fixpoint join (sep : string) (fields : list string) : string :=
  match fields with
  | [] => ""
  | field :: fields =>
      match fields with
      | [] => field
      | _ :: _ => field +:+ sep +:+ join sep fields
      end
  end.

(** [s.split(sep, 1)] for a one-character separator: at most one split, at
    the first occurrence of the separator. *)
Fixpoint split_once (sep : ascii) (s : string) : list string :=
  match s with
  | EmptyString => [EmptyString]
  | String c rest =>
      if Ascii.eqb c sep then [EmptyString; rest]
      else match split_once sep rest with
           | field :: fields => String c field :: fields
           | [] => [String c EmptyString]
           end
  end.

(** [s.find(sub)]: the position of the first occurrence of [sub] in [s];
    [sub in s] is [is_Some (find sub s)] and [s.index(sub)] is its value. *)
Definition find (sub s : string) : option nat := String.index 0 sub s.

(** [s[:n]] for [0 <= n] *)
Definition take (n : nat) (s : string) : string := String.substring 0 n s.

(** The ASCII characters that [str.isspace] accepts. *)
Definition is_space (c : ascii) : bool :=
  let n := nat_of_ascii c in
  (Nat.leb 9 n && Nat.leb n 13) || (Nat.leb 28 n && Nat.leb n 32).

Fixpoint lstrip (s : string) : string :=
  match s with
  | EmptyString => EmptyString
  | String c rest => if is_space c then lstrip rest else s
  end.

Fixpoint rstrip (s : string) : string :=
  match s with
  | EmptyString => EmptyString
  | String c rest =>
      match rstrip rest with
      | EmptyString => if is_space c then EmptyString else String c EmptyString
      | kept => String c kept
      end
  end.

(** [s.strip()] on ASCII text *)
Definition strip (s : string) : string := rstrip (lstrip s).

(** Whether the character occurs in the string. *)
Fixpoint has_char (c : ascii) (s : string) : bool :=
  match s with
  | EmptyString => false
  | String c' rest => Ascii.eqb c' c || has_char c rest
  end.

(** The string with every [a] replaced by [b]. *)
Fixpoint replace_char (a b : ascii) (s : string) : string :=
  match s with
  | EmptyString => EmptyString
  | String c rest =>
      String (if Ascii.eqb c a then b else c) (replace_char a b rest)
  end.

End StrOps.

(** ** constants/shorten_pathway_names.py *)

Module Shorten.
Import StrOps.

(** [paeruginosa_shorten_kegg]; the list [split_label] has one or two
    entries, so both subscripts are in range. *)
Definition paeruginosa_shorten_kegg (pathway_name : string) : string :=
  let REMOVE_SUFFIX := "- Pseudomonas aeruginosa PAO1" in
  let split_label := split_once " "%char pathway_name in
  let pathway_short :=
    if 1 <? length split_label then default "" (split_label !! 1)
    else default "" (split_label !! 0) in
  match find REMOVE_SUFFIX pathway_short with
  | Some remove_from_index => take remove_from_index pathway_short +:+ "PAO1"
  | None => strip pathway_short
  end.

(** [tcga_shorten_pid]; [split] gives at least one field, so [[-1]] is in
    range. *)
Definition tcga_shorten_pid (pathway_name : string) : string :=
  let REMOVE_SUFFIX := "PATHWAY" in
  let split_on_underscores := Str.split "_"%char pathway_name in
  if decide (last split_on_underscores = Some REMOVE_SUFFIX)
  then join " " (removelast split_on_underscores)
  else join " " split_on_underscores.

(** [SHORTEN_PATHWAY_NAMES] *)
Definition SHORTEN_PATHWAY_NAMES : gmap string (string → string) :=
  <["PAO1_KEGG" := paeruginosa_shorten_kegg]>
    (<["TCGA_PID" := tcga_shorten_pid]> ∅).

End Shorten.

(** ** data/get_PID_pathway_definitions.py *)

Module PidDefinitions.
Import StrOps.

(** What the loop body does with one row of the input file. *)
Inductive row_result :=
| Written (text : string)
| Skipped
| IndexError.

Definition tab : ascii := ascii_of_nat 9.

(** The body of [for row in infile]. *)
Definition convert_row (row : string) : row_result :=
  let tokens := Str.split tab row in
  match tokens !! 1 with
  | None => IndexError
  | Some source =>
      if bool_decide (is_Some (find "/PID" source)) then
        let pathway := default "" (tokens !! 0) in
        let genes := drop 2 tokens in
        let n_genes := length genes in
        if bool_decide (n_genes ≠ 0) then
          let genes_str := join ";" genes in
          let output_row := [pathway; pretty n_genes; genes_str] in
          Written (join (String tab "") output_row)
        else Skipped
      else Skipped
  end.

(** The loop over the rows: what has been written to the output file, and
    whether the script stopped on an [IndexError]. *)
Fixpoint convert_rows (rows : list string) : string * bool :=
  match rows with
  | [] => ("", false)
  | row :: rows =>
      match convert_row row with
      | IndexError => ("", true)
      | Skipped => convert_rows rows
      | Written text =>
          let '(written, failed) := convert_rows rows in
          (text +:+ written, failed)
      end
  end.

End PidDefinitions.

(** ** web_edge_page_data.py *)

Module EdgePage.

(** The exceptions that the edge page computation can raise. *)
Inductive error :=
| NoneTypeError      (* TypeError: a subscript on the None of [find_one] *)
| IndexError
| KeyError
| ZeroDivisionError.

#[global] Instance error_ret : MRet (sum error) := λ A x, inr x.
#[global] Instance error_bind : MBind (sum error) := λ A B k m,
  match m with inl e => inl e | inr a => k a end.

Fixpoint foldM {A B} (f : A → B → error + A) (a : A) (l : list B)
  : error + A :=
  match l with
  | [] => inr a
  | x :: l => a' ← f a x; foldM f a' l
  end.

(** [x / y] on floats *)
Definition fdiv (x y : R) : error + R :=
  if Req_dec_T y 0 then inl ZeroDivisionError else inr (x / y)%R.

(** [enumerate(l)] *)
Definition enumerate {A} (l : list A) : list (nat * A) := imap pair l.

(** [sorted(l, key=lambda x: -key(x))]: Python's sort is stable, so elements
    with equal keys keep their order. *)
Section sorted.
Context {A : Type} (key : A → R).

Fixpoint insert_descending (x : A) (l : list A) : list A :=
  match l with
  | [] => [x]
  | y :: rest =>
      if Rlt_dec (key x) (key y) then y :: insert_descending x rest
      else x :: l
  end.

Definition sorted_descending (l : list A) : list A :=
  foldr insert_descending [] l.

End sorted.

(** [l[:k]] and [l[k:]] for any integer [k] *)
Definition slice_to {A} (k : Z) (l : list A) : list A :=
  if (0 <=? k)%Z then take (Z.to_nat k) l
  else take (length l - Z.to_nat (- k)) l.

Definition slice_from {A} (k : Z) (l : list A) : list A :=
  if (0 <=? k)%Z then drop (Z.to_nat k) l
  else drop (length l - Z.to_nat (- k)) l.

(** [[list(l) for l in zip( *rows)]]: the transpose, as long as the shortest
    row. *)
Fixpoint zip_star (rows : list (list R)) : list (list R) :=
  match rows with
  | [] => []
  | row :: rows' =>
      match rows' with
      | [] => (λ x, [x]) <$> row
      | _ :: _ => zip_with cons row (zip_star rows')
      end
  end.

(** [index_sort] *)
Definition index_sort (list_to_sort : list R) : list (nat * R) :=
  sorted_descending snd (enumerate list_to_sort).

(** The order of the result of [index_sort]: greater elements first, and
    equal elements by position. *)
Definition ranks_before (a b : nat * R) : Prop :=
  (a.2 > b.2)%R ∨ (a.2 = b.2 ∧ a.1 < b.1).

(** The documents of the collections that the computation reads. *)
Record gene_doc := {
  gene_id : N;
  gene : string;
  common_name : option string;
  expression : list R;
}.

Record database := {
  genes : list gene_doc;
  sample_labels : gmap nat string;    (* _id -> sample *)
  (* the number of documents of network_feature_signatures that
     hold the gene in their positive or negative signature *)
  signatures_with_gene : N → nat;
}.

(** The attributes of an [EdgeInfo] object. *)
Record EdgeInfo := {
  db : database;
  n_total_features : Z;
  keep_n_samples : Z;
  keep_n_genes : Z;
}.

(** [db.genes.find_one({"_id": gene_id})] *)
Definition find_gene_by_id (d : database) (id : N) : option gene_doc :=
  snd <$> list_find (λ doc, gene_id doc = id) (genes d).

(** [db.genes.find_one({"$or": [{"gene": name}, {"common_name": name}]})] *)
Definition find_gene_by_name (d : database) (name : string)
  : option gene_doc :=
  snd <$> list_find (λ doc, gene doc = name ∨ common_name doc = Some name)
            (genes d).

Record heatmap_square := {
  col_index : nat;
  row_index : nat;
  value : R;
}.

(** The body of the loop of [_get_heatmap_data]. *)
Definition heatmap_column (self : EdgeInfo) (expression_matrix : list (list R))
    (st : list heatmap_square * list string) (entry : nat * (nat * R))
  : error + (list heatmap_square * list string) :=
  let '(heatmap_data, ordered_sample_labels) := st in
  let '(rank, (index, score)) := entry in
  sample_label ←
    match sample_labels (db self) !! index with
    | Some label => inr label
    | None => inl NoneTypeError
    end;
  let ordered_sample_labels := ordered_sample_labels ++ [sample_label] in
  sample_data ←
    match expression_matrix !! index with
    | Some row => inr row
    | None => inl IndexError
    end;
  mret (heatmap_data
          ++ imap (λ gene_index gene_expression,
                     {| col_index := rank; row_index := gene_index;
                        value := gene_expression |}) sample_data,
        ordered_sample_labels).

(** [_get_heatmap_data] *)
Definition get_heatmap_data (self : EdgeInfo)
    (index_sample_scores : list (nat * R))
    (expression_matrix : list (list R))
  : error + (list heatmap_square * list string) :=
  foldM (heatmap_column self expression_matrix) ([], [])
        (enumerate index_sample_scores).

(** The dict that [_edge_page_data] returns. *)
Record page := {
  most_expressed_heatmap : list heatmap_square;
  least_expressed_heatmap : list heatmap_square;
  most_expressed_samples : list string;
  least_expressed_samples : list string;
  gene_names : list string;
  odds_ratios : list R;
  pathway_owner : list nat;
}.

Inductive page_data :=
| Flag             (* {"flag": 1} *)
| Page (p : page).

(** The body of the inner loop of [_edge_page_data]: one gene's share of
    the score of a sample. *)
Definition sample_score_step (gene_odds_ratio_list : list (string * R * nat))
    (sum_odds_ratios : R) (score : R) (entry : nat * R) : error + R :=
  let '(index, gene_expression) := entry in
  gene_odds_ratio ←
    match gene_odds_ratio_list !! index with
    | Some (_, odds_ratio, _) => inr odds_ratio
    | None => inl IndexError
    end;
  weight ← fdiv gene_odds_ratio sum_odds_ratios;
  mret (score + weight * gene_expression)%R.

(** The summary score of one sample. *)
Definition sample_score (gene_odds_ratio_list : list (string * R * nat))
    (sum_odds_ratios : R) (sample_data : list R) : error + R :=
  foldM (sample_score_step gene_odds_ratio_list sum_odds_ratios)
        0%R (enumerate sample_data).

(** The body of the first loop of [_edge_page_data]: the expression row of
    a gene and the running sum of the odds ratios. *)
Definition expression_row_step (self : EdgeInfo)
    (st : list (list R) * R) (entry : string * R * nat)
  : error + (list (list R) * R) :=
  let '(norm_sample_matrix, sum_odds_ratios) := st in
  let '(gene_name, odds_ratio, belongs_to) := entry in
  match find_gene_by_name (db self) gene_name with
  | Some doc =>
      inr (norm_sample_matrix ++ [expression doc],
           (sum_odds_ratios + odds_ratio)%R)
  | None => inl NoneTypeError
  end.

(** [_edge_page_data] *)
Definition edge_page_data (self : EdgeInfo)
    (gene_odds_ratio_list : list (string * R * nat)) : error + page_data :=
  match gene_odds_ratio_list with
  | [] => inr Flag
  | _ :: _ =>
      '(norm_sample_matrix, sum_odds_ratios) ←
        foldM (expression_row_step self) ([], 0%R) gene_odds_ratio_list;
      let norm_sample_matrix := zip_star norm_sample_matrix in
      sample_scores ←
        mapM (sample_score gene_odds_ratio_list sum_odds_ratios)
             norm_sample_matrix;
      let index_sorted_scores := index_sort sample_scores in
      '(most_heatmap, most_samples) ←
        get_heatmap_data self
          (slice_to (keep_n_samples self) index_sorted_scores)
          norm_sample_matrix;
      '(least_heatmap, least_samples) ←
        get_heatmap_data self
          (slice_from (- keep_n_samples self) index_sorted_scores)
          norm_sample_matrix;
      mret (Page {|
        most_expressed_heatmap := most_heatmap;
        least_expressed_heatmap := least_heatmap;
        most_expressed_samples := most_samples;
        least_expressed_samples := least_samples;
        gene_names := (λ t, t.1.1) <$> gene_odds_ratio_list;
        odds_ratios := (λ t, t.1.2) <$> gene_odds_ratio_list;
        pathway_owner := (λ t, t.2) <$> gene_odds_ratio_list |})
  end.

(** The expression rows of the genes of the list that the database knows,
    and with them the number of samples of the page. *)
Definition expression_rows (self : EdgeInfo)
    (gene_odds_ratio_list : list (string * R * nat)) : list (list R) :=
  omap (λ t : string * R * nat,
          expression <$> find_gene_by_name (db self) t.1.1)
       gene_odds_ratio_list.

Definition n_samples (self : EdgeInfo)
    (gene_odds_ratio_list : list (string * R * nat)) : nat :=
  length (zip_star (expression_rows self gene_odds_ratio_list)).

(** [d[k] = v] on the items of a dict, in insertion order. *)
Fixpoint dict_set {V} (k : N) (v : V) (d : list (N * V)) : list (N * V) :=
  match d with
  | [] => [(k, v)]
  | (k', v') :: rest =>
      if decide (k = k') then (k, v) :: rest
      else (k', v') :: dict_set k v rest
  end.

(** The body of the first loop of [_edge_pathway_annotation_odds_ratios]:
    the odds ratio of one gene. *)
Definition odds_ratio_step (self : EdgeInfo) (odds_ratio_denominator : R)
    (odds_ratios : list (N * R)) (entry : N * nat) : error + list (N * R) :=
  let '(gene_id, count) := entry in
  let n_features_contain_gene := signatures_with_gene (db self) gene_id in
  if (count =? 0) && (n_features_contain_gene =? 0) then inr odds_ratios
  else
    odds_ratio_numerator ← fdiv (INR count) (INR n_features_contain_gene);
    odds_ratio ← fdiv odds_ratio_numerator odds_ratio_denominator;
    mret (dict_set gene_id odds_ratio odds_ratios).

(** The genes that the first loop passes over: not counted with the edge
    and in no signature. *)
Definition skipped (self : EdgeInfo) (entry : N * nat) : Prop :=
  entry.2 = 0 ∧ signatures_with_gene (db self) entry.1 = 0.

(** The body of its second loop: the genes with an odds ratio above 1. *)
Definition above_one_step (self : EdgeInfo) (which_pathway : gmap N nat)
    (odds_ratios_above_one : list (string * R * nat)) (entry : N * R)
  : error + list (string * R * nat) :=
  let '(gene_id, odds_ratio) := entry in
  if Rlt_dec 1 odds_ratio then
    doc ←
      match find_gene_by_id (db self) gene_id with
      | Some doc => inr doc
      | None => inl NoneTypeError
      end;
    let gene_name := default (gene doc) (common_name doc) in
    owner ←
      match which_pathway !! gene_id with
      | Some owner => inr owner
      | None => inl KeyError
      end;
    mret (odds_ratios_above_one ++ [(gene_name, odds_ratio, owner)])
  else inr odds_ratios_above_one.

(** [_edge_pathway_annotation_odds_ratios]; [count_gene_edge_common] is
    given by its items. *)
Definition edge_pathway_annotation_odds_ratios (self : EdgeInfo)
    (which_pathway : gmap N nat) (n_features_contain_edge : nat)
    (count_gene_edge_common : list (N * nat))
  : error + list (string * R * nat) :=
  odds_ratio_denominator ←
    fdiv (INR n_features_contain_edge) (IZR (n_total_features self));
  odds_ratios ←
    foldM (odds_ratio_step self odds_ratio_denominator)
          [] count_gene_edge_common;
  odds_ratios_above_one ←
    foldM (above_one_step self which_pathway) [] odds_ratios;
  let odds_ratios_above_one :=
    sorted_descending (λ t : string * R * nat, t.1.2) odds_ratios_above_one in
  let limit_genes_returned :=
    Z.min (Z.of_nat (length odds_ratios_above_one)) (keep_n_genes self) in
  mret (slice_to limit_genes_returned odds_ratios_above_one).

(** A small database for the examples: one gene, one sample. *)
Definition example_database : database := {|
  genes := [{| gene_id := 1; gene := "PA0001"; common_name := None;
               expression := [5%R] |}];
  sample_labels := <[0 := "sample_0"]> ∅;
  signatures_with_gene := λ _, 1;
|}.

Definition example_edge_info : EdgeInfo := {|
  db := example_database;
  n_total_features := 2;
  keep_n_samples := 0;
  keep_n_genes := 20;
|}.

End EdgePage.

(** * Properties of the gene signature definitions over the reals *)

Module SignatureFacts.
Import Pandas GeneSignature.

Section select.
Context (P : R → Prop) `{!∀ w, Decision (P w)}.

Lemma elem_of_select (s : Series) g :
  g ∈ select P s ↔ ∃ w, (g, w) ∈ s ∧ P w.
Proof.
  unfold select, index. rewrite elem_of_list_to_set, list_elem_of_fmap.
  split.
  - intros [[g' w] [-> Hin]]. apply list_elem_of_filter in Hin as [HP Hin].
    eauto.
  - intros (w & Hin & HP). exists (g, w). split; [done|].
    apply list_elem_of_filter. done.
Qed.

End select.

Lemma std_nonneg (s : Series) σ : std s = Some σ → (0 <= σ)%R.
Proof.
  unfold std. destruct (mean s); [|done]. case_decide; [done|].
  intros [= <-]. apply sqrt_pos.
Qed.

End SignatureFacts.

(** * Properties of binary64 arithmetic *)

Module Float64Facts.
Import Float64.

(** The comparisons order the values that are not NaN; the cases of
    [SFcompare] are settled by comparing exponents and mantissas. *)
Ltac order_cases :=
  repeat match goal with
  | |- context [Pos.compare_cont Eq ?m ?n] =>
      change (Pos.compare_cont Eq m n) with (Pos.compare m n);
      destruct (Pos.compare_spec m n)
  | |- context [Z.compare ?m ?n] => destruct (Z.compare_spec m n)
  | H : context [Pos.compare_cont Eq ?m ?n] |- _ =>
      change (Pos.compare_cont Eq m n) with (Pos.compare m n) in H;
      destruct (Pos.compare_spec m n)
  | H : context [Z.compare ?m ?n] |- _ => destruct (Z.compare_spec m n)
  end;
  simpl in *; try done; try lia.

Lemma leb_refl (x : float) : is_nan x = false → leb x x = true.
Proof.
  unfold leb, SFleb. destruct x as [[]|[]| |[] m e]; simpl; try done;
    intros _; rewrite Z.compare_refl;
    change (Pos.compare_cont Eq m m) with (Pos.compare m m);
    by rewrite Pos.compare_refl.
Qed.

Lemma leb_trans (x y z : float) :
  leb x y = true → leb y z = true → leb x z = true.
Proof.
  unfold leb, SFleb.
  destruct x as [[]|[]| |[] mx ex], y as [[]|[]| |[] my ey],
    z as [[]|[]| |[] mz ez]; simpl; try done; intros Hxy Hyz; order_cases.
Qed.

Lemma ltb_leb (x y : float) : ltb x y = true → leb x y = true.
Proof. unfold ltb, leb, SFltb, SFleb. by destruct (SFcompare x y) as [[]|]. Qed.

Lemma ltb_not_leb (x y : float) : ltb x y = true → leb y x = false.
Proof.
  unfold ltb, leb, SFltb, SFleb.
  destruct x as [[]|[]| |[] mx ex], y as [[]|[]| |[] my ey]; simpl;
    try done; intros Hxy; order_cases.
Qed.

Lemma not_leb_ltb (x y : float) :
  is_nan x = false → is_nan y = false → leb x y = false → ltb y x = true.
Proof.
  unfold ltb, leb, SFltb, SFleb.
  destruct x as [[]|[]| |[] mx ex], y as [[]|[]| |[] my ey]; simpl;
    try done; intros _ _ Hxy; order_cases.
Qed.

Lemma leb_nan_r (x : float) : leb x NaN = false.
Proof. by destruct x as [[]|[]| |[]]. Qed.

Lemma leb_nan_l (x : float) : leb NaN x = false.
Proof. done. Qed.

Lemma leb_not_nan (x y : float) :
  leb x y = true → is_nan x = false ∧ is_nan y = false.
Proof. by destruct x as [[]|[]| |[]], y as [[]|[]| |[]]. Qed.

Lemma add_nan_r (x : float) : add x NaN = NaN.
Proof. by destruct x as [[]|[]| |[]]. Qed.

Lemma sub_nan_r (x : float) : sub x NaN = NaN.
Proof. by destruct x as [[]|[]| |[]]. Qed.

Lemma mul_nan_r (x : float) : mul x NaN = NaN.
Proof. by destruct x as [[]|[]| |[]]. Qed.

(** A finite factor times a zero is a zero, and adding a zero to, or
    subtracting it from, a value leaves a value that compares equal. *)
Lemma mul_zero_r (x z : float) :
  is_finite x = true → is_zero z = true → is_zero (mul x z) = true.
Proof. by destruct x as [[]|[]| |[]], z as [[]|[]| |[]]. Qed.

Lemma geb_add_zero (w z : float) :
  is_nan w = false → is_zero z = true → geb w (add w z) = true.
Proof.
  intros Hw Hz. destruct z as [sz| | |]; try done. unfold geb.
  destruct w as [[]|[]| |[] m e], sz; try done; by apply leb_refl.
Qed.

Lemma leb_sub_zero (w z : float) :
  is_nan w = false → is_zero z = true → leb w (sub w z) = true.
Proof.
  intros Hw Hz. destruct z as [sz| | |]; try done.
  destruct w as [[]|[]| |[] m e], sz; try done; by apply leb_refl.
Qed.

(** The difference of a finite value and itself is +0, and 0 divided by
    anything is 0 or NaN. *)
Lemma sub_diag (w : float) : is_finite w = true → sub w w = zero.
Proof.
  destruct w as [[]|[]| |s m e]; try done. intros _.
  unfold sub, SFsub. by rewrite Z.sub_diag.
Qed.

Lemma div_zero_l (d : float) :
  is_nan (div zero d) = false → is_zero (div zero d) = true.
Proof. by destruct d as [[]|[]| |[]]. Qed.

Lemma sqrt_nan (x : float) : is_nan x = true → sqrt x = NaN.
Proof. by destruct x. Qed.

Lemma sqrt_zero (x : float) : is_zero x = true → is_zero (sqrt x) = true.
Proof. by destruct x. Qed.

End Float64Facts.

(** * Properties of the gene signature definitions in binary64 *)

Module Signature64Facts.
Import Float64 Pandas64 GeneSignature64 Float64Facts.

Section select.
Context (P : float → bool).

Lemma elem_of_select64 (s : Series) g :
  g ∈ select P s ↔ ∃ w, (g, w) ∈ s ∧ P w = true.
Proof.
  unfold select, index. rewrite elem_of_list_to_set, list_elem_of_fmap.
  split.
  - intros [[g' w] [-> Hin]]. apply list_elem_of_filter in Hin as [HP Hin].
    eauto.
  - intros (w & Hin & HP). exists (g, w). split; [done|].
    apply list_elem_of_filter. done.
Qed.

Lemma select_const (s : Series) (w : float) :
  Forall (λ row, row.2 = w) s →
  select P s = if P w then list_to_set (index s) else ∅.
Proof.
  intros Hall. apply set_eq. intros g. rewrite elem_of_select64.
  rewrite Forall_forall in Hall. split.
  - intros (w' & Hin & HP). pose proof (Hall _ Hin) as Hw. simpl in Hw.
    rewrite <- Hw, HP. apply elem_of_list_to_set, list_elem_of_fmap.
    by exists (g, w').
  - destruct (P w) eqn:HP; [|by intros ?%not_elem_of_empty].
    intros ([g' w'] & -> & Hin)%elem_of_list_to_set%list_elem_of_fmap.
    exists w'. split; [done|]. pose proof (Hall _ Hin) as Hw.
    simpl in Hw. by rewrite Hw.
Qed.

End select.

Lemma select_nan_threshold (s : Series) :
  select (λ w, geb w NaN) s = ∅ ∧ select (λ w, leb w NaN) s = ∅.
Proof.
  split; apply set_eq; intros g; rewrite elem_of_select64;
    (split; [|by intros ?%not_elem_of_empty]); intros (w & _ & Hw).
  - done.
  - by rewrite leb_nan_r in Hw.
Qed.

(** A gene identifier labels one row when the index has no duplicates. *)
Lemma unique_weight64 (s : Series) g w1 w2 :
  NoDup (index s) → (g, w1) ∈ s → (g, w2) ∈ s → w1 = w2.
Proof.
  unfold index. intros Hnd H1 H2.
  apply list_elem_of_lookup in H1 as [i Hi], H2 as [j Hj].
  assert (i = j) as ->.
  { eapply NoDup_lookup; [exact Hnd | |].
    - rewrite list_lookup_fmap, Hi. reflexivity.
    - rewrite list_lookup_fmap, Hj. reflexivity. }
  congruence.
Qed.

(** With fewer than two weights that are not NaN the standard deviation is
    NaN, and so are both thresholds. *)
Lemma std_short64 (s : Series) : count s ≤ 1 → std s = NaN.
Proof. intros Hn. unfold std, var. by rewrite decide_True. Qed.

Lemma count_le_length (s : Series) : count s ≤ length s.
Proof.
  unfold count, values. etrans; [apply length_filter|]. by rewrite length_fmap.
Qed.

Lemma eADAGE_short64 (v : Series) (std_arg : float) :
  count v ≤ 1 → define_eADAGE_gene_signature std_arg v = (∅, ∅).
Proof.
  intros Hn. unfold define_eADAGE_gene_signature, eADAGE_gene_signature.
  rewrite (std_short64 v Hn), mul_nan_r, add_nan_r, sub_nan_r.
  by destruct (select_nan_threshold v) as [-> ->].
Qed.

(** ** The eADAGE rule *)

Lemma eADAGE_signature_thresholds_aux (v : Series) (std_arg : float) :
  let t_pos := add (mean v) (mul std_arg (std v)) in
  let t_neg := sub (mean v) (mul std_arg (std v)) in
  (∀ g, g ∈ (define_eADAGE_gene_signature std_arg v).1
        ↔ ∃ w, (g, w) ∈ v ∧ geb w t_pos = true)
  ∧ (∀ g, g ∈ (define_eADAGE_gene_signature std_arg v).2
          ↔ ∃ w, (g, w) ∈ v ∧ leb w t_neg = true).
Proof.
  intros t_pos t_neg. split; intros g.
  - apply (elem_of_select64 (λ w, geb w t_pos)).
  - apply (elem_of_select64 (λ w, leb w t_neg)).
Qed.

(** C1 (as amended).  The eADAGE rule returns as positive set the genes
    with weight ≥ t⁺ and as negative set the genes with weight ≤ t⁻, where
    t⁺ = μ + std·σ and t⁻ = μ − std·σ as float64 computes them from the
    mean μ and the sample standard deviation σ of pandas.  A gene in
    neither set has t⁻ < weight < t⁺, unless its weight or a threshold is
    NaN.  With distinct gene identifiers the sets are disjoint when
    t⁻ < t⁺; every gene with t⁺ ≤ weight ≤ t⁻ is in both. *)
Theorem eADAGE_signature_thresholds (v : Series) (std_arg : float) :
  let t_pos := add (mean v) (mul std_arg (std v)) in
  let t_neg := sub (mean v) (mul std_arg (std v)) in
  let positive := (define_eADAGE_gene_signature std_arg v).1 in
  let negative := (define_eADAGE_gene_signature std_arg v).2 in
  (∀ g, g ∈ positive ↔ ∃ w, (g, w) ∈ v ∧ geb w t_pos = true)
  ∧ (∀ g, g ∈ negative ↔ ∃ w, (g, w) ∈ v ∧ leb w t_neg = true)
  ∧ (∀ g w, (g, w) ∈ v → g ∉ positive → g ∉ negative →
       is_nan w = false → is_nan t_pos = false → is_nan t_neg = false →
       ltb t_neg w = true ∧ ltb w t_pos = true)
  ∧ (NoDup (index v) → ltb t_neg t_pos = true → positive ## negative)
  ∧ (∀ g w, (g, w) ∈ v → geb w t_pos = true → leb w t_neg = true →
       g ∈ positive ∧ g ∈ negative).
Proof.
  intros t_pos t_neg positive negative.
  destruct (eADAGE_signature_thresholds_aux v std_arg) as [Hpos Hneg].
  fold t_pos t_neg positive negative in Hpos, Hneg.
  split_and!; [done | done | | |].
  - intros g w Hin Hnp Hnn Hw Htp Htn. rewrite Hpos in Hnp.
    rewrite Hneg in Hnn. split.
    + apply not_leb_ltb; [done | done |].
      destruct (leb w t_neg) eqn:Hle; [|done]. destruct Hnn. eauto.
    + apply not_leb_ltb; [done | done |].
      destruct (leb t_pos w) eqn:Hge; [|done]. destruct Hnp. eauto.
  - intros Hnd Hlt g Hp Hn.
    destruct (proj1 (Hpos g) Hp) as (w1 & Hin1 & Hge).
    destruct (proj1 (Hneg g) Hn) as (w2 & Hin2 & Hle).
    rewrite (unique_weight64 v g w1 w2 Hnd Hin1 Hin2) in Hge.
    pose proof (leb_trans _ _ _ Hge Hle) as Hcontra.
    by rewrite (ltb_not_leb _ _ Hlt) in Hcontra.
  - intros g w Hin Hge Hle. split; [apply Hpos | apply Hneg]; eauto.
Qed.


(** C1, counterexample: on two genes of equal weight the positive and the
    negative signature both hold every gene, so they are not disjoint. *)
Lemma eADAGE_signature_overlap :
  ¬ (define_eADAGE_gene_signature (of_Z 1)
       [("g0", of_Z 1); ("g1", of_Z 1)]).1
    ## (define_eADAGE_gene_signature (of_Z 1)
          [("g0", of_Z 1); ("g1", of_Z 1)]).2.
Proof.
  assert (define_eADAGE_gene_signature (of_Z 1)
            [("g0", of_Z 1); ("g1", of_Z 1)]
          = ({["g0"; "g1"]}, {["g0"; "g1"]})) as -> by by vm_compute.
  simpl. intros Hdisj. apply (Hdisj "g0"); set_solver.
Qed.

(** A positive standard deviation does not keep the signatures apart: on
    the weights 1 and 1 + 2^-52 with std = 0.1 the standard deviation is
    about 2.2e-16, both thresholds round to 1, and the first gene is in
    both signatures. *)
Lemma eADAGE_signature_overlap_rounding :
  let v := [("g0", of_Z 1); ("g1", S754_finite false (2 ^ 52 + 1) (-52))] in
  let std_arg := div (of_Z 1) (of_Z 10) in
  ltb zero (std v) = true
  ∧ add (mean v) (mul std_arg (std v)) = of_Z 1
  ∧ sub (mean v) (mul std_arg (std v)) = of_Z 1
  ∧ define_eADAGE_gene_signature std_arg v = ({["g0"; "g1"]}, {["g0"]}).
Proof. by vm_compute. Qed.

Lemma eADAGE_signature_thresholds_witness :
  let v := [("a", of_Z (-1)); ("b", of_Z 0); ("c", of_Z 1)] in
  let positive := (define_eADAGE_gene_signature (of_Z 1) v).1 in
  let negative := (define_eADAGE_gene_signature (of_Z 1) v).2 in
  mean v = of_Z 0 ∧ std v = of_Z 1
  ∧ positive = {["c"]} ∧ negative = {["a"]}
  ∧ (∀ g, g ∈ positive ↔ ∃ w, (g, w) ∈ v ∧ geb w (of_Z 1) = true)
  ∧ positive ## negative
  ∧ define_eADAGE_gene_signature (div (of_Z 9) (of_Z 8)) v = (∅, ∅).
Proof.
  intros v positive negative.
  destruct (eADAGE_signature_thresholds v (of_Z 1))
    as (Hpos & _ & _ & Hdisj & _).
  split_and!; [by vm_compute | by vm_compute | by vm_compute | by vm_compute
              | exact Hpos | | by vm_compute].
  apply Hdisj; [|by vm_compute].
  unfold v, index. simpl. compute_done.
Defined.

(** ** Zero variance *)

(** The standard deviation of equal weights, when their mean is computed
    exactly: every deviation is +0, so the variance is 0 divided by the
    number of weights less one. *)
Lemma sum_zero (l : list float) : Forall (λ x, x = zero) l → sum l = zero.
Proof.
  unfold sum. induction 1 as [|x l -> _ IH]; [done|]. simpl. exact IH.
Qed.

Lemma std_equal_weights (v : Series) (w : float) :
  Forall (λ row, row.2 = w) v → is_finite w = true → mean v = w →
  is_nan (std v) = false → is_zero (std v) = true.
Proof.
  intros Hall Hw Hmean. unfold std, var.
  destruct (decide (count v ≤ 1)) as [Hcount|Hcount]; [done|].
  unfold mean in Hmean. rewrite decide_False in Hmean by lia. rewrite Hmean.
  rewrite sum_zero.
  - intros Hnan. apply sqrt_zero, div_zero_l.
    destruct (div zero _) as [| | |]; done.
  - unfold values. rewrite Forall_fmap, Forall_fmap.
    eapply Forall_impl; [exact Hall|]. intros [g x]. simpl. intros ->.
    destruct (is_nan w) eqn:Hnan; [done|]. by rewrite sub_diag.
Qed.

(** C2 (as amended).  On a weight vector whose weights are all equal to [w]
    the eADAGE rule returns two sets, each of them empty or the set of all
    genes: the positive one holds every gene exactly when w ≥ t⁺, the
    negative one exactly when w ≤ t⁻, for the thresholds t⁺ and t⁻ that
    float64 computes.  With fewer than two genes both are empty.  When [w]
    is finite, the mean is computed as [w] itself and the standard
    deviation is not NaN, the standard deviation is 0, and for a finite std
    both sets hold every gene. *)
Theorem eADAGE_signature_zero_variance (v : Series) (w std_arg : float) :
  Forall (λ row, row.2 = w) v →
  let t_pos := add (mean v) (mul std_arg (std v)) in
  let t_neg := sub (mean v) (mul std_arg (std v)) in
  let positive := (define_eADAGE_gene_signature std_arg v).1 in
  let negative := (define_eADAGE_gene_signature std_arg v).2 in
  positive = (if geb w t_pos then list_to_set (index v) else ∅)
  ∧ negative = (if leb w t_neg then list_to_set (index v) else ∅)
  ∧ (length v < 2 → positive = ∅ ∧ negative = ∅)
  ∧ (is_finite w = true → mean v = w → is_nan (std v) = false →
     is_zero (std v) = true
     ∧ (is_finite std_arg = true →
        positive = list_to_set (index v)
        ∧ negative = list_to_set (index v))).
Proof.
  intros Hall t_pos t_neg positive negative.
  assert (Hpos : positive
                 = if geb w t_pos then list_to_set (index v) else ∅)
    by apply (select_const (λ w, geb w t_pos) v w Hall).
  assert (Hneg : negative
                 = if leb w t_neg then list_to_set (index v) else ∅)
    by apply (select_const (λ w, leb w t_neg) v w Hall).
  split_and!; [done | done | |].
  - intros Hlen. unfold positive, negative.
    rewrite eADAGE_short64; [done|].
    pose proof (count_le_length v). lia.
  - intros Hw Hmean Hnan.
    pose proof (std_equal_weights v w Hall Hw Hmean Hnan) as Hzero.
    split; [done|]. intros Hstd. rewrite Hpos, Hneg. unfold t_pos, t_neg.
    rewrite Hmean.
    pose proof (mul_zero_r std_arg (std v) Hstd Hzero) as Hcut.
    assert (is_nan w = false) as Hw' by by destruct w.
    by rewrite (geb_add_zero w _ Hw' Hcut), (leb_sub_zero w _ Hw' Hcut).
Qed.

Lemma eADAGE_signature_zero_variance_witness :
  let v := [("g0", of_Z 0); ("g1", of_Z 0); ("g2", of_Z 0)] in
  let std_arg := div (of_Z 5) (of_Z 2) in
  mean v = of_Z 0 ∧ std v = of_Z 0
  ∧ define_eADAGE_gene_signature std_arg v
    = ({["g0"; "g1"; "g2"]}, {["g0"; "g1"; "g2"]}).
Proof.
  intros v std_arg. split; [by vm_compute|]. split; [by vm_compute|].
  destruct (eADAGE_signature_zero_variance v (of_Z 0) std_arg)
    as (_ & _ & _ & Hall); [by repeat constructor|].
  destruct Hall as [_ Hall]; [done | by vm_compute | by vm_compute|].
  destruct Hall as [Hpos Hneg]; [done|].
  rewrite (surjective_pairing (define_eADAGE_gene_signature std_arg v)).
  rewrite Hpos, Hneg. by vm_compute.
Defined.

(** C2, counterexample: three genes of weight 0, std = 2.5; the signatures
    are not empty. *)
Lemma eADAGE_signature_zero_variance_nonempty :
  define_eADAGE_gene_signature (div (of_Z 5) (of_Z 2))
    [("g0", of_Z 0); ("g1", of_Z 0); ("g2", of_Z 0)] ≠ (∅, ∅).
Proof.
  assert (define_eADAGE_gene_signature (div (of_Z 5) (of_Z 2))
            [("g0", of_Z 0); ("g1", of_Z 0); ("g2", of_Z 0)]
          = ({["g0"; "g1"; "g2"]}, {["g0"; "g1"; "g2"]})) as ->
    by by vm_compute.
  intros H. apply (f_equal fst) in H. simpl in H.
  apply (not_elem_of_empty (C:=gset string) "g0"). rewrite <- H. set_solver.
Qed.

(** Equal weights do not always give a standard deviation of 0: the mean
    of three weights 0.1 is computed as 0.10000000000000002 and the standard
    deviation as 1.7e-17; the mean and the standard deviation of two weights
    1e308 overflow.  In both cases the two signatures are empty. *)
Lemma eADAGE_signature_zero_variance_rounding :
  let tenth := div (of_Z 1) (of_Z 10) in
  let huge := S754_finite false 5010420900022432 971 in
  let std_arg := div (of_Z 5) (of_Z 2) in
  let v := [("g0", tenth); ("g1", tenth); ("g2", tenth)] in
  let v' := [("g0", huge); ("g1", huge)] in
  ltb tenth (mean v) = true ∧ ltb zero (std v) = true
  ∧ define_eADAGE_gene_signature std_arg v = (∅, ∅)
  ∧ mean v' = S754_infinity false ∧ std v' = S754_infinity false
  ∧ define_eADAGE_gene_signature std_arg v' = (∅, ∅).
Proof. by vm_compute. Qed.

(** ** The NMF rule *)

(** C6.  The NMF rule returns an empty negative set and the positive set
    of the eADAGE rule: the genes with weight ≥ t⁺, for t⁺ = μ + std·σ as
    float64 computes it.  The positive set is an upper tail of the weights:
    with a gene of weight ≥ t⁺ it holds every gene of at least that
    weight, so that a set that is not empty holds the genes of the greatest
    weight; it is empty when fewer than two weights are not NaN. *)
Theorem NMF_signature_positive_tail (v : Series) (std_arg : float) :
  let t_pos := add (mean v) (mul std_arg (std v)) in
  let positive := (define_NMF_gene_signature std_arg v).1 in
  (define_NMF_gene_signature std_arg v).2 = ∅
  ∧ positive = (define_eADAGE_gene_signature std_arg v).1
  ∧ (∀ g, g ∈ positive ↔ ∃ w, (g, w) ∈ v ∧ geb w t_pos = true)
  ∧ (∀ g w g' w', (g, w) ∈ v → geb w t_pos = true →
       (g', w') ∈ v → leb w w' = true → g' ∈ positive)
  ∧ (∀ g' w', positive ≠ ∅ → (g', w') ∈ v →
       (∀ g w, (g, w) ∈ v → is_nan w = false → leb w w' = true) →
       g' ∈ positive)
  ∧ (count v ≤ 1 → positive = ∅).
Proof.
  intros t_pos positive.
  assert (Hpos : ∀ g, g ∈ positive ↔ ∃ w, (g, w) ∈ v ∧ geb w t_pos = true)
    by (intros g; apply (elem_of_select64 (λ w, geb w t_pos))).
  assert (Hup : ∀ g w g' w', (g, w) ∈ v → geb w t_pos = true →
                  (g', w') ∈ v → leb w w' = true → g' ∈ positive).
  { intros g w g' w' _ Hge Hin' Hle. apply Hpos. exists w'.
    split; [done|]. unfold geb in *. by eapply leb_trans. }
  split_and!; [done | done | done | done | |].
  - intros g' w' Hne Hin' Hmax.
    apply set_choose_L in Hne as [g Hg].
    apply Hpos in Hg as (w & Hin & Hge).
    apply (Hup g w g' w' Hin Hge Hin'). apply (Hmax g w Hin).
    by apply leb_not_nan in Hge as [_ Hw].
  - intros Hn. change positive
      with (define_eADAGE_gene_signature std_arg v).1.
    by rewrite eADAGE_short64.
Qed.

Lemma NMF_signature_positive_tail_witness :
  let v := [("a", of_Z 0); ("b", of_Z 0); ("c", of_Z 0); ("d", of_Z 8)] in
  mean v = of_Z 2 ∧ std v = of_Z 4
  ∧ define_NMF_gene_signature (of_Z 1) v = ({["d"]}, ∅)
  ∧ define_NMF_gene_signature (div (of_Z 3) (of_Z 2)) v = ({["d"]}, ∅)
  ∧ define_NMF_gene_signature (div (of_Z 13) (of_Z 8)) v = (∅, ∅)
  ∧ (∀ g, g ∈ (define_NMF_gene_signature (of_Z 1) v).1
          ↔ ∃ w, (g, w) ∈ v ∧ geb w (of_Z 6) = true).
Proof.
  intros v.
  destruct (NMF_signature_positive_tail v (of_Z 1)) as (_ & _ & Hpos & _).
  split_and!; [by vm_compute | by vm_compute | by vm_compute | by vm_compute
              | by vm_compute | exact Hpos].
Defined.

(** ** Weights that are NaN *)

(** X3.  pandas leaves NaN weights out of the mean and the standard
    deviation, and every comparison with NaN is false: a gene whose weight
    is NaN is in neither signature, and when at most one weight of the
    vector is not NaN both signatures are empty, for every std. *)
Theorem eADAGE_signature_leaves_NaN_out
    (v : Series) (std_arg : float) (g : string) (w : float) :
  NoDup (index v) → (g, w) ∈ v → is_nan w = true →
  (g ∉ (define_eADAGE_gene_signature std_arg v).1)
  ∧ (g ∉ (define_eADAGE_gene_signature std_arg v).2)
  ∧ (count v ≤ 1 → define_eADAGE_gene_signature std_arg v = (∅, ∅)).
Proof.
  intros Hnd Hin Hw.
  destruct (eADAGE_signature_thresholds_aux v std_arg) as [Hpos Hneg].
  split_and!.
  - intros (w' & Hin' & Hge)%Hpos.
    rewrite (unique_weight64 v g w' w Hnd Hin' Hin) in Hge.
    apply leb_not_nan in Hge as [_ Hge]. congruence.
  - intros (w' & Hin' & Hle)%Hneg.
    rewrite (unique_weight64 v g w' w Hnd Hin' Hin) in Hle.
    apply leb_not_nan in Hle as [Hle _]. congruence.
  - apply eADAGE_short64.
Qed.

Lemma eADAGE_signature_leaves_NaN_out_witness :
  let v := [("a", NaN); ("b", of_Z 1); ("c", of_Z 3); ("d", of_Z 5)] in
  mean v = of_Z 3 ∧ std v = of_Z 2
  ∧ define_eADAGE_gene_signature (of_Z 1) v = ({["d"]}, {["b"]})
  ∧ ("a" ∉ (define_eADAGE_gene_signature (of_Z 1) v).1)
  ∧ define_eADAGE_gene_signature (of_Z 1) [("a", NaN); ("b", of_Z 1)]
    = (∅, ∅).
Proof.
  intros v. split_and!; [by vm_compute | by vm_compute | by vm_compute | |].
  - apply (eADAGE_signature_leaves_NaN_out v (of_Z 1) "a" NaN).
    + unfold v, index. simpl. compute_done.
    + apply list_elem_of_here.
    + done.
  - apply (eADAGE_signature_leaves_NaN_out
             [("a", NaN); ("b", of_Z 1)] (of_Z 1) "a" NaN).
    + unfold index. simpl. compute_done.
    + apply list_elem_of_here.
    + done.
    + by vm_compute.
Defined.

End Signature64Facts.

(** * Properties of [convert_to_gene_object_ids] *)

Module WebDbFacts.
Import WebDb.

Section convert.
Context {ObjectId : Type}.
Implicit Types (m : gmap string ObjectId) (o : pyobj).

Lemma foldl_append_id m (acc : list ObjectId) (genes : list string) :
  foldl (append_id m) acc genes = acc ++ omap (λ gene, m !! gene) genes.
Proof.
  revert acc. induction genes as [|gene genes IH]; intros acc; simpl.
  - by rewrite app_nil_r.
  - rewrite IH. unfold append_id. destruct (m !! gene); [|done].
    by rewrite <- app_assoc.
Qed.

Lemma length_omap_le {X Y} (f : X → option Y) (l : list X) :
  length (omap f l) ≤ length l.
Proof.
  induction l as [|x l IH]; csimpl; [done|].
  destruct (f x); simpl; lia.
Qed.

(** C9.  An input that is neither a string nor a set gives the empty list.
    For a string (split at the semicolons) or a set, the result holds
    exactly the ObjectIds that the map gives to genes of the input, genes
    without an entry being skipped, and it is no longer than the number of
    distinct genes of the input. *)
Theorem convert_to_gene_object_ids_spec o m :
  match named_genes o with
  | None => convert_to_gene_object_ids o m = []
  | Some genes =>
      (∀ oid, oid ∈ convert_to_gene_object_ids o m
              ↔ ∃ gene, gene ∈ genes ∧ m !! gene = Some oid) ∧
      length (convert_to_gene_object_ids o m) ≤ size genes
  end.
Proof.
  assert (Hset : ∀ genes : gset string,
    (∀ oid, oid ∈ foldl (append_id m) [] (elements genes)
            ↔ ∃ gene, gene ∈ genes ∧ m !! gene = Some oid) ∧
    length (foldl (append_id m) [] (elements genes)) ≤ size genes).
  { intros genes. rewrite foldl_append_id. simpl. split.
    - intros oid. rewrite list_elem_of_omap.
      by setoid_rewrite elem_of_elements.
    - apply length_omap_le. }
  destruct o; simpl; try done; apply Hset.
Qed.

End convert.

Example convert_skips_unmapped :
  convert_to_gene_object_ids (PyStr "PA0001;PA0002;PA0001")
    (<["PA0001" := 7%Z]> ∅) = [7%Z].
Proof. reflexivity. Qed.

Example convert_nan :
  convert_to_gene_object_ids PyNaN (<["PA0001" := 7%Z]> ∅) = [].
Proof. reflexivity. Qed.

End WebDbFacts.

(** * Properties of [get_terms] *)

Module TribeFacts.
Import Tribe.

Lemma get_terms_step_kept acc count (g : geneset) :
  get_terms_step (acc, count) g
  = (acc ++ from_option (λ r, [r]) [] (kept g), count + 1).
Proof.
  unfold get_terms_step, kept. destruct (tip g) as [t|]; simpl.
  - destruct ((100 <? length (genes t)) || (length (genes t) <? 5)); simpl;
      by rewrite ?app_nil_r.
  - by rewrite app_nil_r.
Qed.

Lemma get_terms_loop (genesets : list geneset) acc count :
  foldl get_terms_step (acc, count) genesets
  = (acc ++ omap kept genesets, count + length genesets).
Proof.
  revert acc count. induction genesets as [|g gs IH]; intros acc count.
  - simpl. by rewrite app_nil_r, Nat.add_0_r.
  - cbn [foldl]. rewrite get_terms_step_kept, IH. csimpl.
    destruct (kept g); simpl; rewrite <- ?app_assoc, ?app_nil_r;
      f_equal; lia.
Qed.

Lemma get_terms_kept (genesets : list geneset) :
  get_terms genesets = omap kept genesets.
Proof.
  unfold get_terms, get_terms_run. rewrite get_terms_loop. reflexivity.
Qed.

(** C10.  The genesets returned by [get_terms] are exactly the title and tip
    genes of the genesets of the response that have a tip version with
    between 5 and 100 genes; a geneset without tip, or with fewer than 5 or
    more than 100 genes, gives no entry. *)
Theorem get_terms_size_filter (genesets : list geneset) :
  ∀ r, r ∈ get_terms genesets
       ↔ ∃ g t, g ∈ genesets ∧ tip g = Some t
                ∧ 5 ≤ length (genes t) ≤ 100
                ∧ r = {| new_title := title g; new_genes := genes t |}.
Proof.
  intros r. rewrite get_terms_kept, list_elem_of_omap. unfold kept. split.
  - intros (g & Hin & Hk). destruct (tip g) as [t|] eqn:Ht; [|done].
    destruct (100 <? length (genes t)) eqn:H1;
      destruct (length (genes t) <? 5) eqn:H2; simplify_eq/=.
    apply Nat.ltb_ge in H1, H2. exists g, t. eauto with lia.
  - intros (g & t & Hin & Ht & [H5 H100] & ->). exists g. split; [done|].
    rewrite Ht. apply Nat.ltb_ge in H5. apply Nat.ltb_ge in H100.
    by rewrite H5, H100.
Qed.

End TribeFacts.

(** * Properties of [process] *)

Module ProcessFacts.
Import Pandas GeneSignature Network.

Section process.
Context (with_correction :
  Series → PathwayDefinitions → signature_function → R → bool → bool
  → exn + enrichment).
Context (no_correction :
  Series → PathwayDefinitions → signature_function → R → bool
  → exn + enrichment).
Context (crosstalk_correction : option bool).
Context (pathway_definitions : PathwayDefinitions)
        (partial_function_signature : signature_function)
        (alpha : R) (correct_all_genes metadata : bool).

Local Abbreviation enriched :=
  (feature_enrichment with_correction no_correction pathway_definitions
     partial_function_signature alpha correct_all_genes metadata).
Local Abbreviation process_here :=
  (process with_correction no_correction crosstalk_correction).

Lemma process_loop branch (weight_matrix : WeightMatrix) df fm df' fm' :
  foldM (process_feature with_correction no_correction branch
           pathway_definitions partial_function_signature alpha
           correct_all_genes metadata) (df, fm) weight_matrix
  = inr (df', fm') →
  ∃ outs : list enrichment,
    Forall2 (λ column out,
               ∃ b, branch = inr b
                    ∧ enriched b column.2 = inr out)
            weight_matrix outs
    ∧ df' = df ++ mjoin (zip_with rows_of weight_matrix outs).
Proof.
  revert df fm. induction weight_matrix as [|[feature weights] wm IH];
    intros df fm; simpl.
  - intros [= <- <-]. exists []. split; [constructor|]. by rewrite app_nil_r.
  - destruct branch as [e|b] eqn:Hb; [done|]. simpl.
    destruct (if b then _ else _) as [e|[feature_df additional]] eqn:Hout;
      [done|]. simpl.
    destruct feature_df as [feature_df|]; simpl; intros Hrest;
      apply IH in Hrest as (outs & Hall & ->).
    + exists ((Some feature_df, additional) :: outs). split.
      * constructor; [|done]. exists b. by split.
      * simpl. by rewrite <- app_assoc.
    + exists ((None, additional) :: outs). split.
      * constructor; [|done]. exists b. by split.
      * done.
Qed.


Lemma read_crosstalk_correction_inr b :
  read_crosstalk_correction crosstalk_correction = inr b
  → crosstalk_correction = Some b.
Proof.
  unfold read_crosstalk_correction.
  destruct crosstalk_correction; naive_solver.
Qed.

(** C5.  When [process] returns for a model, its table of significant
    pathways is the concatenation, in feature order, of what the enrichment
    returned for each feature column, every row with its "feature" field
    set to the label of that column; a feature for which the enrichment
    returned no table, or an empty one, adds no row. *)
Theorem process_rows_by_feature
    (name : string) (weight_matrix : WeightMatrix)
    (overlap_correction : bool) (results : model_results) :
  process_here (name, weight_matrix) pathway_definitions
    partial_function_signature alpha overlap_correction
    correct_all_genes metadata = inr results →
  ∃ outs : list enrichment,
    Forall2 (λ column out,
               ∃ b, crosstalk_correction = Some b
                    ∧ enriched b column.2 = inr out)
            weight_matrix outs
    ∧ significant_pathways results
      = mjoin (zip_with rows_of weight_matrix outs)
    ∧ (∀ column out, out.1 = None ∨ out.1 = Some [] → rows_of column out = [])
    ∧ (∀ r, r ∈ significant_pathways results →
         ∃ i column out feature_df r0,
           weight_matrix !! i = Some column ∧ outs !! i = Some out
           ∧ out.1 = Some feature_df ∧ r0 ∈ feature_df
           ∧ r = <["feature" := CInt column.1]> r0
           ∧ r !! "feature" = Some (CInt column.1)).
Proof.
  unfold process, process_with.
  destruct (foldM _ _ _) as [e|[df fm]] eqn:Hloop; [done|].
  simpl. intros [= <-]. simpl.
  apply process_loop in Hloop as (outs & Hall & ->).
  exists outs. split_and!.
  - eapply Forall2_impl; [exact Hall|]. simpl.
    intros column out (b & Hb & Hout). exists b.
    split; [by apply read_crosstalk_correction_inr | done].
  - done.
  - intros column out [Hnone|Hempty]; unfold rows_of;
      [by rewrite Hnone | by rewrite Hempty].
  - intros r Hr. simpl in Hr. apply list_elem_of_join in Hr as (rows & Hr & Hrows).
    apply list_elem_of_lookup in Hrows as [i Hi].
    apply lookup_zip_with_Some in Hi as (column & out & -> & Hc & Ho).
    unfold rows_of, set_feature in Hr.
    destruct (out.1) as [feature_df|] eqn:Hdf; [|by apply elem_of_nil in Hr].
    apply list_elem_of_fmap in Hr as (r0 & -> & Hr0).
    exists i, column, out, feature_df, r0.
    split_and!; try done. by rewrite lookup_insert_eq.
Qed.

Lemma process_filename (name : string) (weight_matrix : WeightMatrix)
    (overlap_correction : bool) (results : model_results) :
  process_here (name, weight_matrix) pathway_definitions
    partial_function_signature alpha overlap_correction
    correct_all_genes metadata = inr results →
  filename results = name.
Proof.
  unfold process, process_with.
  destruct (foldM _ _ _) as [e|[df fm]]; [done|]. by intros [= <-].
Qed.

(** The parameter [overlap_correction] has no effect on [process]. *)
Lemma process_parameter_unread current_weight_matrix (oc oc' : bool) :
  process_here current_weight_matrix pathway_definitions
    partial_function_signature alpha oc correct_all_genes metadata
  = process_here current_weight_matrix pathway_definitions
      partial_function_signature alpha oc' correct_all_genes metadata.
Proof. reflexivity. Qed.

(** [process] does what its docstring says of the value of the global
    name. *)
Lemma process_follows_global current_weight_matrix (oc b : bool) :
  crosstalk_correction = Some b →
  process_here current_weight_matrix pathway_definitions
    partial_function_signature alpha oc correct_all_genes metadata
  = process_documented with_correction no_correction current_weight_matrix
      pathway_definitions partial_function_signature alpha b
      correct_all_genes metadata.
Proof. intros ->. reflexivity. Qed.

End process.

Lemma process_rows_by_feature_witness :
  let model :=
    ("model_0", [(0%Z, [("geneA", 1%R); ("geneB", 2%R)]);
                 (1%Z, [("geneA", 1%R)])]) in
  ∃ results outs,
    process example_with_correction example_no_correction (Some false)
      model ∅ (define_NMF_gene_signature 2) (5 / 100) false true false
    = inr results
    ∧ outs = [(Some [{["pathway" := CStr "uncorrected"]}], None); (None, None)]
    ∧ significant_pathways results = mjoin (zip_with rows_of model.2 outs).
Proof.
  intros model. eexists _, _. split; [reflexivity|].
  destruct (process_rows_by_feature example_with_correction
              example_no_correction (Some false) ∅
              (define_NMF_gene_signature 2) (5 / 100) true false
              "model_0" model.2 false _ eq_refl)
    as (outs & Hall & Hrows & _).
  apply Forall2_cons_inv_l in Hall as (o0 & outs' & (b0 & [= <-] & [= <-]) & Hall & ->).
  apply Forall2_cons_inv_l in Hall as (o1 & outs'' & (b1 & [= <-] & [= <-]) & Hall & ->).
  apply Forall2_nil_inv_l in Hall as ->.
  split; [reflexivity | exact Hrows].
Defined.

(** C3, the code at a failing input.  With the global name
    [crosstalk_correction] bound to [True], a call of [process] with
    [overlap_correction=False] takes the overlap-correction path: it
    returns what the documented behaviour returns for
    [overlap_correction=True], not for [False]. *)
Theorem process_overlap_correction_ignored :
  let model := ("model_0", [(0%Z, [("geneA", 1%R); ("geneB", 2%R)])]) in
  let sig := define_eADAGE_gene_signature (5 / 2) in
  process example_with_correction example_no_correction (Some true)
    model ∅ sig (5 / 100) false true false
  = inr {| filename := "model_0";
           significant_pathways :=
             [<["feature" := CInt 0]> {["pathway" := CStr "corrected"]}];
           feature_metadata := ∅ |}
  ∧ process_documented example_with_correction example_no_correction
      model ∅ sig (5 / 100) false true false
    = inr {| filename := "model_0";
             significant_pathways :=
               [<["feature" := CInt 0]> {["pathway" := CStr "uncorrected"]}];
             feature_metadata := ∅ |}.
Proof. split; reflexivity. Qed.

(** Called while the global name is unbound, [process] raises on the first
    feature. *)
Example process_name_error :
  process example_with_correction example_no_correction None
    ("model_0", [(0%Z, [("geneA", 1%R); ("geneB", 2%R)])]) ∅
    (define_eADAGE_gene_signature (5 / 2)) (5 / 100) false true false
  = inl (NameError "crosstalk_correction").
Proof. reflexivity. Qed.

End ProcessFacts.

(** * Properties of the parallel section *)

Module ParallelFacts.
Import Pandas GeneSignature Network.

Section Parallel.
Context {A B : Type} (f : A → exn + B).

Lemma elem_of_submit (xs : list A) i x :
  (i, x) ∈ submit xs ↔ xs !! i = Some x.
Proof.
  unfold submit. rewrite elem_of_lookup_imap. split.
  - by intros (j & y & [= -> ->] & H).
  - intros H. by exists i, x.
Qed.

(** Every task is run by exactly the worker it was handed to: the finished
    outcomes are those of the submitted tasks, under their numbers. *)
Lemma elem_of_finished (n_jobs : nat) (xs : list A) (d : nat * (exn + B)) :
  n_jobs ≠ 0 →
  d ∈ mjoin (run_worker f <$> dispatch n_jobs (submit xs))
  ↔ ∃ x, xs !! d.1 = Some x ∧ d.2 = f x.
Proof.
  intros Hn. rewrite list_elem_of_join. split.
  - intros (out & Hd & Hout).
    apply list_elem_of_fmap in Hout as (batch & -> & Hbatch).
    apply list_elem_of_fmap in Hbatch as (w & -> & _).
    apply list_elem_of_fmap in Hd as ([i x] & -> & Hin).
    apply list_elem_of_filter in Hin as [_ Hin].
    apply elem_of_submit in Hin. eauto.
  - intros (x & Hx & Hfx).
    set (batch := filter (λ t : nat * A, t.1 `mod` n_jobs = d.1 `mod` n_jobs)
                    (submit xs)).
    exists (run_worker f batch). split.
    + apply list_elem_of_fmap. exists (d.1, x). split.
      * destruct d; simpl in *; by subst.
      * apply list_elem_of_filter. split; [done | by apply elem_of_submit].
    + apply list_elem_of_fmap. exists batch. split; [done|].
      apply list_elem_of_fmap. exists (d.1 `mod` n_jobs). split; [done|].
      apply elem_of_seq. split; [lia|]. simpl.
      by apply Nat.mod_upper_bound.
Qed.

Lemma retrieve_finished (n_jobs : nat) (xs : list A) i x :
  n_jobs ≠ 0 → xs !! i = Some x →
  retrieve (mjoin (run_worker f <$> dispatch n_jobs (submit xs))) i
  = Some (f x).
Proof.
  intros Hn Hx. unfold retrieve.
  destruct (list_find_elem_of (λ d : nat * (exn + B), d.1 = i)
              (mjoin (run_worker f <$> dispatch n_jobs (submit xs)))
              (i, f x)) as [[k d] Hfind]; [|done|].
  { apply elem_of_finished; [done|]. by exists x. }
  rewrite Hfind. simpl.
  apply list_find_Some in Hfind as (Hk & Hd & _).
  apply list_elem_of_lookup_2 in Hk.
  apply elem_of_finished in Hk as (y & Hy & Hfy); [|done].
  rewrite Hd, Hx in Hy. injection Hy as <-. by rewrite Hfy.
Qed.

Lemma collect_outcomes (xs : list A) :
  collect ((λ x, Some (f x)) <$> xs) = mapM f xs.
Proof.
  induction xs as [|x xs IH]; [done|]. csimpl. by rewrite IH.
Qed.

(** With at least one worker, the parallel call returns what the loop over
    the same tasks returns, whatever the number of workers. *)
Lemma Parallel_sequential (n_jobs : nat) (xs : list A) :
  n_jobs ≠ 0 → Parallel f n_jobs xs = sequential f xs.
Proof.
  intros Hn. unfold Parallel, sequential. case_decide; [done|].
  rewrite <- collect_outcomes. f_equal. apply list_eq. intros i.
  rewrite !list_lookup_fmap.
  destruct (xs !! i) as [x|] eqn:Hx; simpl.
  - assert (seq 0 (length xs) !! i = Some i) as ->.
    { apply lookup_seq. split; [done|]. by eapply lookup_lt_Some. }
    simpl. f_equal. by apply retrieve_finished.
  - rewrite (proj2 (lookup_ge_None _ _)); [done|].
    rewrite length_seq. by apply lookup_ge_None.
Qed.

Lemma mapM_inr (xs : list A) (ys : list B) :
  mapM f xs = inr ys ↔ Forall2 (λ x y, f x = inr y) xs ys.
Proof.
  revert ys. induction xs as [|x xs IH]; intros ys; simpl.
  - split; [intros [= <-]; constructor | by intros ->%Forall2_nil_inv_l].
  - destruct (f x) as [e|y] eqn:Hfx; simpl.
    + split; [done|]. intros (y & ys' & Hy & _ & _)%Forall2_cons_inv_l.
      by rewrite Hfx in Hy.
    + destruct (mapM f xs) as [e|ys'] eqn:Hrest; simpl.
      * split; [done|].
        intros (y' & ys' & _ & Hall & _)%Forall2_cons_inv_l.
        by apply IH in Hall.
      * split.
        -- intros [= <-]. constructor; [done | by apply IH].
        -- intros (y' & ys'' & Hy & Hall & ->)%Forall2_cons_inv_l.
           apply IH in Hall. rewrite Hfx in Hy. by simplify_eq.
Qed.

Lemma mapM_inl_elem (xs : list A) e :
  mapM f xs = inl e → ∃ x, x ∈ xs ∧ f x = inl e.
Proof.
  induction xs as [|x xs IH]; simpl; [done|].
  destruct (f x) as [e'|y] eqn:Hfx; simpl.
  - intros [= ->]. exists x. split; [apply list_elem_of_here | done].
  - destruct (mapM f xs) as [e'|ys]; simpl; [|done].
    intros [= ->]. destruct IH as (x' & Hin & Hx'); [done|].
    exists x'. split; [by apply list_elem_of_further | done].
Qed.

Lemma mapM_total (xs : list A) :
  Forall (λ x, ∃ y, f x = inr y) xs → ∃ ys, mapM f xs = inr ys.
Proof.
  induction 1 as [|x xs [y Hy] _ [ys Hys]]; simpl.
  - by eexists.
  - rewrite Hy. simpl. rewrite Hys. simpl. by eexists.
Qed.

End Parallel.

Section run_models.
Context (c : collaborators).
Context (pathway_definitions : PathwayDefinitions)
        (partial_function_signature : signature_function)
        (alpha : R) (crosstalk_correction correct_all_genes metadata : bool).

(** One task of the parallel section. *)
Local Abbreviation process_model :=
  (λ weight_matrix_info : string * WeightMatrix,
     process (pathway_enrichment_with_overlap_correction c)
       (pathway_enrichment_no_overlap_correction c)
       (Some crosstalk_correction) weight_matrix_info pathway_definitions
       partial_function_signature alpha crosstalk_correction
       correct_all_genes metadata).

(** C8.  For models that [process] all handles and at least one worker,
    the parallel section returns one entry per submitted model, with the
    filenames of the submitted models in submission order, and the entries
    are those of processing the models one after the other; they are the
    same for every number of workers. *)
Theorem run_models_deterministic
    (n_cores : nat) (weight_matrices : list (string * WeightMatrix)) :
  1 ≤ n_cores →
  Forall (λ weight_matrix_info, ∃ r, process_model weight_matrix_info = inr r)
         weight_matrices →
  ∃ results,
    run_models c n_cores weight_matrices pathway_definitions
      partial_function_signature alpha crosstalk_correction
      correct_all_genes metadata = inr results
    ∧ length results = length weight_matrices
    ∧ filename <$> results = weight_matrices.*1
    ∧ run_models_sequentially c weight_matrices pathway_definitions
        partial_function_signature alpha crosstalk_correction
        correct_all_genes metadata = inr results
    ∧ (∀ n_cores', 1 ≤ n_cores' →
         run_models c n_cores' weight_matrices pathway_definitions
           partial_function_signature alpha crosstalk_correction
           correct_all_genes metadata = inr results).
Proof.
  intros Hn Hvalid. unfold run_models, run_models_sequentially.
  destruct (mapM_total _ _ Hvalid) as [results Hresults].
  exists results.
  assert (Hall := proj1 (mapM_inr _ _ _) Hresults).
  split_and!.
  - rewrite Parallel_sequential by lia. exact Hresults.
  - symmetry. by eapply Forall2_length.
  - clear Hresults Hvalid. induction Hall as [|[name wm] r wms rs Hr _ IH].
    + done.
    + csimpl. rewrite IH. f_equal.
      by eapply ProcessFacts.process_filename.
  - exact Hresults.
  - intros n_cores' Hn'. rewrite Parallel_sequential by lia. exact Hresults.
Qed.

(** C4 (as amended).  When [process] raises for one of the submitted
    models, the parallel section returns no result for any model.  With at
    least one worker it raises an exception that [process] raised for a
    submitted model, the exception of the failing model when no other model
    fails; with [n_cores = 0] it raises the [ValueError] of joblib. *)
Theorem run_models_all_or_nothing
    (n_cores : nat) (weight_matrices : list (string * WeightMatrix))
    (weight_matrix_info : string * WeightMatrix) (e : exn) :
  weight_matrix_info ∈ weight_matrices →
  process_model weight_matrix_info = inl e →
  (n_cores = 0 →
   run_models c n_cores weight_matrices pathway_definitions
     partial_function_signature alpha crosstalk_correction
     correct_all_genes metadata
   = inl (ValueError "n_jobs == 0 in Parallel has no meaning"))
  ∧ (1 ≤ n_cores →
     ∃ failed e',
       failed ∈ weight_matrices
       ∧ process_model failed = inl e'
       ∧ run_models c n_cores weight_matrices pathway_definitions
           partial_function_signature alpha crosstalk_correction
           correct_all_genes metadata = inl e'
       ∧ ((∀ other, other ∈ weight_matrices →
             other = weight_matrix_info ∨ ∃ r, process_model other = inr r)
          → e' = e)).
Proof.
  intros Hin Hfail. unfold run_models. split.
  - intros ->. reflexivity.
  - intros Hn. rewrite Parallel_sequential by lia. unfold sequential.
    destruct (mapM process_model weight_matrices) as [e'|results] eqn:Hrun.
    + destruct (mapM_inl_elem _ _ _ Hrun) as (failed & Hfailed & He').
      exists failed, e'. split_and!; [done | done | done |].
      intros Hothers. destruct (Hothers failed Hfailed) as [->|[r Hr]].
      * rewrite Hfail in He'. by injection He'.
      * rewrite Hr in He'. discriminate He'.
    + apply mapM_inr in Hrun.
      apply list_elem_of_lookup in Hin as [i Hi].
      destruct (Forall2_lookup_l _ _ _ _ _ Hrun Hi) as (r & _ & Hr).
      rewrite Hfail in Hr. discriminate Hr.
Qed.

End run_models.

(** Two models for the examples: every feature of the first has genes, the
    second has a feature column without genes. *)
Local Abbreviation good_model :=
  ("model_0.tsv", [(0%Z, [("geneA", 1%R); ("geneB", 2%R)])]).
Local Abbreviation bad_model :=
  ("model_1.tsv", [(0%Z, @nil (string * R))]).

Lemma run_models_deterministic_witness :
  ∃ results,
    run_models example_collaborators 3 [good_model; good_model] ∅
      (define_eADAGE_gene_signature (5 / 2)) (5 / 100) false true false
    = inr results
    ∧ filename <$> results = ["model_0.tsv"; "model_0.tsv"]
    ∧ run_models_sequentially example_collaborators
        [good_model; good_model] ∅
        (define_eADAGE_gene_signature (5 / 2)) (5 / 100) false true false
      = inr results.
Proof.
  destruct (run_models_deterministic example_collaborators ∅
              (define_eADAGE_gene_signature (5 / 2)) (5 / 100)
              false true false 3 [good_model; good_model])
    as (results & Hrun & _ & Hnames & Hseq & _).
  - lia.
  - repeat constructor; eexists; reflexivity.
  - exists results. by split_and!.
Defined.

Lemma run_models_all_or_nothing_witness :
  run_models example_collaborators 2 [good_model; bad_model] ∅
    (define_eADAGE_gene_signature (5 / 2)) (5 / 100)
    false true false
  = inl (Raised "feature column without genes")
  ∧ run_models example_collaborators 0 [good_model; bad_model] ∅
      (define_eADAGE_gene_signature (5 / 2)) (5 / 100)
      false true false
    = inl (ValueError "n_jobs == 0 in Parallel has no meaning").
Proof.
  destruct (run_models_all_or_nothing example_collaborators ∅
              (define_eADAGE_gene_signature (5 / 2)) (5 / 100)
              false true false 2 [good_model; bad_model] bad_model
              (Raised "feature column without genes"))
    as [_ Hraise].
  { apply list_elem_of_further, list_elem_of_here. }
  { reflexivity. }
  destruct Hraise as (failed & e' & _ & _ & Hrun & Honly); [lia|].
  split.
  - rewrite Hrun. f_equal. apply Honly. intros other Hother.
    apply elem_of_cons in Hother as [->|Hother].
    + right. eexists. reflexivity.
    + apply elem_of_cons in Hother as [->|Hother]; [by left|].
      by apply elem_of_nil in Hother.
  - reflexivity.
Defined.

(** C4, counterexample: of two submitted models the first is processed
    without error, the second has a feature column without genes; the
    parallel section raises and returns no result, not even that of the
    first model. *)
Lemma run_models_discards_completed_work :
  (∃ r, process example_with_correction example_no_correction (Some false)
          good_model ∅ (define_eADAGE_gene_signature (5 / 2)) (5 / 100)
          false true false = inr r)
  ∧ ¬ ∃ results,
        run_models example_collaborators 2 [good_model; bad_model] ∅
          (define_eADAGE_gene_signature (5 / 2)) (5 / 100) false true false
        = inr results.
Proof.
  split; [eexists; reflexivity|]. intros [results Hrun].
  vm_compute in Hrun. discriminate Hrun.
Qed.

End ParallelFacts.

(** * Properties of the script *)

Module ScriptFacts.
Import Pandas GeneSignature Network.

Lemma docopt_result_str (arguments : gmap string argval) key :
  docopt_result arguments = true → key ∈ docopt_strings →
  ∃ s, arguments !! key = Some (AStr s).
Proof.
  unfold docopt_result. intros [_ Hstr]%andb_prop Hkey.
  rewrite forallb_forall in Hstr. apply list_elem_of_In, Hstr in Hkey.
  destruct (arguments !! key) as [[s| |]|]; try done. by exists s.
Qed.

Lemma docopt_result_key (arguments : gmap string argval) key :
  docopt_result arguments = true → key ∈ docopt_keys →
  ∃ v, arguments !! key = Some v.
Proof.
  unfold docopt_result. intros [Hdom _]%andb_prop Hkey.
  apply bool_decide_eq_true in Hdom. rewrite <- Hdom in Hkey.
  by apply elem_of_dom in Hkey.
Qed.

Lemma docopt_result_no_key (arguments : gmap string argval) key :
  docopt_result arguments = true → key ∉ docopt_keys →
  arguments !! key = None.
Proof.
  unfold docopt_result. intros [Hdom _]%andb_prop Hkey.
  apply bool_decide_eq_true in Hdom. rewrite <- Hdom in Hkey.
  by apply not_elem_of_dom in Hkey.
Qed.

Lemma no_crosstalk_correction_key : "--crosstalk-correction" ∉ docopt_keys.
Proof. compute_done. Qed.

(** The laws of the run monad that the proofs step with. *)
Lemma IO_ret_bind {A B} (x : A) (k : A → IO B) : (mret x ≫= k) = k x.
Proof. unfold mbind, IO_bind, mret, IO_ret. by destruct (k x). Qed.

Lemma IO_raise_bind {A B} (e : exn) (k : A → IO B) :
  (raise e ≫= k) = raise e.
Proof. reflexivity. Qed.

Lemma getitem_Some (arguments : gmap string argval) key v :
  arguments !! key = Some v → getitem arguments key = mret v.
Proof. unfold getitem. by intros ->. Qed.

Lemma getitem_None (arguments : gmap string argval) key :
  arguments !! key = None → getitem arguments key = raise (KeyError key).
Proof. unfold getitem. by intros ->. Qed.

Lemma contains_registry (name : string) :
  contains GENE_SIGNATURE_DEFINITIONS (AStr name) = true
  ↔ name ∈ dom GENE_SIGNATURE_DEFINITIONS.
Proof.
  unfold contains. rewrite bool_decide_eq_true. symmetry. apply elem_of_dom.
Qed.

Lemma registry_keys : dom GENE_SIGNATURE_DEFINITIONS = {["eADAGE"; "NMF"]}.
Proof.
  unfold GENE_SIGNATURE_DEFINITIONS. rewrite !dom_insert_L, dom_empty_L.
  set_solver.
Qed.

Section script.
Context (c : collaborators).

Lemma int_Some s z : py_int c s = Some z → int c (AStr s) = mret z.
Proof. unfold int. by intros ->. Qed.

Lemma int_None s :
  py_int c s = None
  → int c (AStr s) = raise (ValueError (invalid_literal_message s)).
Proof. unfold int. by intros ->. Qed.

Lemma float_Some s x : py_float c s = Some x → float c (AStr s) = mret x.
Proof. unfold float. by intros ->. Qed.

Lemma float_None s :
  py_float c s = None
  → float c (AStr s) = raise (ValueError (could_not_convert_message s)).
Proof. unfold float. by intros ->. Qed.

Ltac step_getitem H :=
  rewrite (getitem_Some _ _ _ H), ?IO_ret_bind.
Ltac step_int s :=
  let H := fresh "Hint" in
  destruct (py_int c s) eqn:H;
  [ rewrite (int_Some _ _ H), ?IO_ret_bind
  | rewrite (int_None _ H), ?IO_raise_bind ].
Ltac step_float s :=
  let H := fresh "Hfloat" in
  destruct (py_float c s) eqn:H;
  [ rewrite (float_Some _ _ H), ?IO_ret_bind
  | rewrite (float_None _ H), ?IO_raise_bind ].

(** The script up to the test of the signature name. *)
Lemma main_unknown_signature (arguments : gmap string argval)
    a b d g k signature :
  arguments !! "<models-dir>" = Some a →
  arguments !! "<output-dir>" = Some b →
  arguments !! "<pathway-definitions>" = Some d →
  arguments !! "<n-genes>" = Some (AStr g) →
  arguments !! "--n-features" = Some (AStr k) →
  arguments !! "--signature" = Some signature →
  contains GENE_SIGNATURE_DEFINITIONS signature = false →
  main c arguments
  = raise (ValueError
             match py_int c g, py_int c k with
             | None, _ => invalid_literal_message g
             | Some _, None => invalid_literal_message k
             | Some _, Some _ => unknown_signature_message signature
             end).
Proof.
  intros H1 H2 H3 H4 H5 H6 Hno. unfold main.
  step_getitem H1. step_getitem H2. step_getitem H3. step_getitem H4.
  step_int g; [|reflexivity]. step_getitem H5.
  step_int k; [|reflexivity]. step_getitem H6. rewrite Hno. reflexivity.
Qed.


Ltac different_message :=
  intros [= Heq];
  unfold invalid_literal_message, could_not_convert_message,
    unknown_signature_message in Heq;
  simpl in Heq; discriminate Heq.

(** For a known signature name the run of the script on a dict of [docopt]
    ends in an error that is not the one of the signature test; the
    parallel section is not reached, for want of the key
    "--crosstalk-correction". *)
Lemma main_known_signature (arguments : gmap string argval) name :
  docopt_result arguments = true →
  arguments !! "--signature" = Some (AStr name) →
  name ∈ dom GENE_SIGNATURE_DEFINITIONS →
  ∃ e, main c arguments = raise e
       ∧ e ≠ ValueError (unknown_signature_message (AStr name)).
Proof.
  intros Hdoc H6 Hname.
  destruct (docopt_result_key arguments "<models-dir>" Hdoc) as [a H1];
    [compute_done|].
  destruct (docopt_result_key arguments "<output-dir>" Hdoc) as [b H2];
    [compute_done|].
  destruct (docopt_result_key arguments "<pathway-definitions>" Hdoc)
    as [d H3]; [compute_done|].
  destruct (docopt_result_str arguments "<n-genes>" Hdoc) as [g H4];
    [compute_done|].
  destruct (docopt_result_str arguments "--n-features" Hdoc) as [k H5];
    [compute_done|].
  destruct (docopt_result_str arguments "--signature-args" Hdoc) as [sa H7];
    [compute_done|].
  destruct (docopt_result_str arguments "--alpha" Hdoc) as [al H8];
    [compute_done|].
  destruct (docopt_result_key arguments "--genes-list" Hdoc) as [gl H9];
    [compute_done|].
  destruct (docopt_result_key arguments "--replace" Hdoc) as [re H10];
    [compute_done|].
  pose proof (docopt_result_no_key arguments _ Hdoc
                no_crosstalk_correction_key) as H11.
  pose proof (proj2 (contains_registry name) Hname) as Hyes.
  apply elem_of_dom in Hname as [definition Hdef].
  unfold main.
  step_getitem H1. step_getitem H2. step_getitem H3. step_getitem H4.
  step_int g; [|eexists; split; [reflexivity | different_message]].
  step_getitem H5.
  step_int k; [|eexists; split; [reflexivity | different_message]].
  step_getitem H6. rewrite Hyes, IO_ret_bind, Hdef, IO_ret_bind.
  step_getitem H7. change (as_str (AStr sa)) with (mret sa : IO string).
  rewrite IO_ret_bind.
  unfold call_signature_definition.
  destruct (Str.split ";" sa) as [|std_arg [|]];
    [eexists; split; [reflexivity | done] | |
     eexists; split; [reflexivity | done]].
  step_float std_arg; [|eexists; split; [reflexivity | different_message]].
  step_getitem H8.
  step_float al; [|eexists; split; [reflexivity | different_message]].
  step_getitem H9. step_getitem H10.
  rewrite (getitem_None _ _ H11), IO_raise_bind.
  eexists; split; [reflexivity | done].
Qed.

(** C7.  On a dict of [docopt] whose signature name is not a key of
    [GENE_SIGNATURE_DEFINITIONS], the script fails with a [ValueError] (the
    configuration error of the script) and the parallel section has not
    been entered; when the two counts before it parse, the error is the one
    of the signature test.  For a name that is a key, the script does not
    end in that error. *)
Theorem unknown_signature_fails_fast (arguments : gmap string argval) name :
  docopt_result arguments = true →
  arguments !! "--signature" = Some (AStr name) →
  (name ∉ dom GENE_SIGNATURE_DEFINITIONS →
     (∃ msg, (main c arguments).2 = inl (ValueError msg))
     ∧ ¬ parallel_started (main c arguments).1
     ∧ (∀ g k, arguments !! "<n-genes>" = Some (AStr g) →
               arguments !! "--n-features" = Some (AStr k) →
               is_Some (py_int c g) → is_Some (py_int c k) →
               main c arguments
               = raise (ValueError (unknown_signature_message (AStr name)))))
  ∧ (name ∈ dom GENE_SIGNATURE_DEFINITIONS →
       (main c arguments).2
       ≠ inl (ValueError (unknown_signature_message (AStr name)))).
Proof.
  intros Hdoc H6. split.
  - intros Hname.
    destruct (docopt_result_key arguments "<models-dir>" Hdoc) as [a H1];
      [compute_done|].
    destruct (docopt_result_key arguments "<output-dir>" Hdoc) as [b H2];
      [compute_done|].
    destruct (docopt_result_key arguments "<pathway-definitions>" Hdoc)
      as [d H3]; [compute_done|].
    destruct (docopt_result_str arguments "<n-genes>" Hdoc) as [g H4];
      [compute_done|].
    destruct (docopt_result_str arguments "--n-features" Hdoc) as [k H5];
      [compute_done|].
    assert (Hno : contains GENE_SIGNATURE_DEFINITIONS (AStr name) = false).
    { apply not_true_is_false. by rewrite contains_registry. }
    pose proof (main_unknown_signature arguments a b d g k (AStr name)
                  H1 H2 H3 H4 H5 H6 Hno) as Hmain.
    rewrite Hmain. split_and!.
    + eexists. reflexivity.
    + intros (n_jobs & n_models & Hin). simpl in Hin.
      by apply elem_of_nil in Hin.
    + intros g' k' Hg Hk [ng Hng] [nk Hnk].
      rewrite H4 in Hg. rewrite H5 in Hk. simplify_eq.
      by rewrite Hng, Hnk.
  - intros Hname.
    destruct (main_known_signature arguments name Hdoc H6 Hname)
      as (e & -> & Hne).
    simpl. congruence.
Qed.

End script.

Lemma unknown_signature_fails_fast_witness :
  docopt_result (example_arguments "PCA") = true
  ∧ (example_arguments "PCA") !! "--signature" = Some (AStr "PCA")
  ∧ ("PCA" ∉ dom GENE_SIGNATURE_DEFINITIONS)
  ∧ main example_collaborators (example_arguments "PCA")
    = raise (ValueError (unknown_signature_message (AStr "PCA"))).
Proof.
  assert (Hdoc : docopt_result (example_arguments "PCA") = true)
    by (vm_compute; reflexivity).
  assert (Hsig : (example_arguments "PCA") !! "--signature"
                 = Some (AStr "PCA")) by reflexivity.
  assert (Hname : "PCA" ∉ dom GENE_SIGNATURE_DEFINITIONS)
    by (rewrite registry_keys; compute_done).
  split_and!; [done..|].
  destruct (unknown_signature_fails_fast example_collaborators
              (example_arguments "PCA") "PCA" Hdoc Hsig)
    as [Hunknown _].
  destruct (Hunknown Hname) as (_ & _ & Hmsg).
  apply (Hmsg "5" "300"); [reflexivity | reflexivity | by eexists..].
Defined.

Example known_signature_key_error :
  main example_collaborators (example_arguments "eADAGE")
  = raise (KeyError "--crosstalk-correction").
Proof. reflexivity. Qed.

End ScriptFacts.

(** * Further properties of the gene signature definitions *)

Module SignatureBounds.
Import Pandas GeneSignature SignatureFacts.

(** X1.  The signatures of both rules hold only genes of the weight vector:
    the positive and the negative set of the eADAGE rule and the positive
    set of the NMF rule are subsets of the index of the vector. *)
Theorem signatures_within_index (v : Series) (std_arg : R) :
  (define_eADAGE_gene_signature std_arg v).1 ⊆ list_to_set (index v)
  ∧ (define_eADAGE_gene_signature std_arg v).2 ⊆ list_to_set (index v)
  ∧ (define_NMF_gene_signature std_arg v).1 ⊆ list_to_set (index v).
Proof.
  assert (Hsel : ∀ (P : R → Prop) `{!∀ w, Decision (P w)},
            select P v ⊆ list_to_set (index v)).
  { intros P ? g (w & Hin & _)%elem_of_select.
    apply elem_of_list_to_set. unfold index.
    apply list_elem_of_fmap. by exists (g, w). }
  split_and!; apply Hsel.
Qed.

Lemma thresholds_ordered (v : Series) (s1 s2 : R) (x : float) w :
  (s1 <= s2)%R →
  (fge w (fadd x (fmul (Some s2) (std v)))
   → fge w (fadd x (fmul (Some s1) (std v))))
  ∧ (fle w (fsub x (fmul (Some s2) (std v)))
     → fle w (fsub x (fmul (Some s1) (std v)))).
Proof.
  intros Hs. destruct (std v) as [σ|] eqn:Hσ; [|by destruct x].
  pose proof (std_nonneg v σ Hσ) as Hnn.
  destruct x as [μ|]; simpl; [|done].
  pose proof (Rmult_le_compat_r σ s1 s2 Hnn Hs). split; lra.
Qed.

(** X2.  Raising the number of standard deviations can only shrink the
    signatures: for std1 ≤ std2 the positive and the negative signature at
    std2 are subsets of those at std1. *)
Theorem eADAGE_signature_antitone (v : Series) (std1 std2 : R) :
  (std1 <= std2)%R →
  (define_eADAGE_gene_signature std2 v).1
    ⊆ (define_eADAGE_gene_signature std1 v).1
  ∧ (define_eADAGE_gene_signature std2 v).2
      ⊆ (define_eADAGE_gene_signature std1 v).2.
Proof.
  intros Hs. unfold define_eADAGE_gene_signature, eADAGE_gene_signature.
  simpl. split; intros g (w & Hin & Hw)%elem_of_select;
    apply elem_of_select; exists w; (split; [done|]);
    by apply (thresholds_ordered v std1 std2 (mean v) w Hs).
Qed.

Lemma eADAGE_signature_antitone_witness :
  (1 <= 2)%R
  ∧ (define_eADAGE_gene_signature 2 [("a", 0%R); ("b", 2%R)]).1
      ⊆ (define_eADAGE_gene_signature 1 [("a", 0%R); ("b", 2%R)]).1.
Proof.
  split; [lra|].
  apply (eADAGE_signature_antitone [("a", 0%R); ("b", 2%R)] 1 2). lra.
Defined.

End SignatureBounds.

(** * Splitting and joining strings *)

Module StrFacts.
Import StrOps.

Lemma split_not_nil sep s : Str.split sep s ≠ [].
Proof.
  destruct s as [|c rest]; simpl; [done|].
  destruct (Ascii.eqb c sep); [done|]. by destruct (Str.split sep rest).
Qed.

Lemma join_cons sep field fields :
  fields ≠ [] → join sep (field :: fields) = field +:+ sep +:+ join sep fields.
Proof. by destruct fields. Qed.

Lemma has_char_app c s t :
  has_char c (s +:+ t) = has_char c s || has_char c t.
Proof.
  induction s as [|c' s IH]; simpl; [done|]. by rewrite IH, orb_assoc.
Qed.

(** Joining the fields of a split gives the string back. *)
Lemma join_split sep s : join (String sep "") (Str.split sep s) = s.
Proof.
  induction s as [|c rest IH]; simpl; [done|].
  destruct (Ascii.eqb c sep) eqn:Hc.
  - apply Ascii.eqb_eq in Hc as ->.
    rewrite join_cons by apply split_not_nil. simpl. by rewrite IH.
  - destruct (Str.split sep rest) as [|field fields]; [by simplify_eq/=|].
    destruct fields; simpl in *; by rewrite <- IH.
Qed.

Lemma split_no_sep sep s :
  has_char sep s = false → Str.split sep s = [s].
Proof.
  induction s as [|c rest IH]; simpl; [done|].
  destruct (Ascii.eqb c sep); [done|]. simpl. by intros ->%IH.
Qed.

Lemma split_app sep s t :
  has_char sep s = false →
  Str.split sep (s +:+ String sep t) = s :: Str.split sep t.
Proof.
  induction s as [|c rest IH]; simpl.
  - by rewrite Ascii.eqb_refl.
  - destruct (Ascii.eqb c sep); [done|]. simpl. by intros ->%IH.
Qed.

(** Splitting a join of separator-free fields gives the fields back. *)
Lemma split_join sep fields :
  fields ≠ [] → Forall (λ field, has_char sep field = false) fields →
  Str.split sep (join (String sep "") fields) = fields.
Proof.
  intros Hne Hall. induction Hall as [|field fields Hfield Hall IH]; [done|].
  destruct fields as [|field' fields].
  - simpl. by apply split_no_sep.
  - rewrite join_cons by done.
    change (String sep "" +:+ ?x) with (String sep x).
    rewrite split_app by done. by rewrite IH.
Qed.

(** The fields of a split hold no separator. *)
Lemma split_fields sep s :
  Forall (λ field, has_char sep field = false) (Str.split sep s).
Proof.
  induction s as [|c rest IH]; simpl.
  - by repeat constructor.
  - destruct (Ascii.eqb c sep) eqn:Hc; [by constructor|].
    destruct IH as [|field fields Hfield Hall]; repeat constructor; simpl.
    + by rewrite Hc.
    + by rewrite Hc.
    + done.
Qed.

Lemma split_sep_app sep s t :
  Str.split sep (s +:+ String sep t) = Str.split sep s ++ Str.split sep t.
Proof.
  induction s as [|c rest IH]; simpl.
  - by rewrite Ascii.eqb_refl.
  - destruct (Ascii.eqb c sep); [by rewrite IH|]. rewrite IH.
    pose proof (split_not_nil sep rest). by destruct (Str.split sep rest).
Qed.

Lemma has_char_join c sep fields :
  has_char c sep = false → Forall (λ field, has_char c field = false) fields →
  has_char c (join sep fields) = false.
Proof.
  intros Hsep. induction 1 as [|field fields Hfield _ IH]; [done|].
  destruct fields; [done|]. rewrite join_cons by done.
  by rewrite !has_char_app, Hfield, Hsep, IH.
Qed.

Lemma join_split_replace (a b : ascii) s :
  join (String b "") (Str.split a s) = replace_char a b s.
Proof.
  induction s as [|c rest IH]; simpl; [done|].
  destruct (Ascii.eqb c a).
  - rewrite join_cons by apply split_not_nil. simpl. by rewrite IH.
  - destruct (Str.split a rest) as [|field [|field' fields]];
      simpl in *; by rewrite <- IH.
Qed.

Lemma has_char_replace (a b : ascii) s :
  a ≠ b → has_char a (replace_char a b s) = false.
Proof.
  intros Hab. induction s as [|c rest IH]; simpl; [done|]. rewrite IH.
  destruct (Ascii.eqb c a) eqn:Hc; rewrite orb_false_r.
  - apply Ascii.eqb_neq. congruence.
  - done.
Qed.

End StrFacts.

(** * Properties of the functions that shorten pathway names *)

Module ShortenFacts.
Import StrOps Shorten StrFacts.

Lemma Forall_removelast {X} (P : X → Prop) (l : list X) :
  Forall P l → Forall P (removelast l).
Proof.
  induction 1 as [|x l Hx Hl IH]; simpl; [constructor|].
  destruct l; [constructor|]. by constructor.
Qed.

(** X4.  The name that [tcga_shorten_pid] returns holds no underscore. *)
Theorem tcga_shorten_pid_no_underscore (pathway_name : string) :
  has_char "_" (tcga_shorten_pid pathway_name) = false.
Proof.
  unfold tcga_shorten_pid. pose proof (split_fields "_" pathway_name) as Hf.
  case_decide; apply has_char_join; try done. by apply Forall_removelast.
Qed.

(** X5.  [tcga_shorten_pid] drops a final field "PATHWAY" and turns every
    underscore into a space: a name [s_PATHWAY] becomes [s] with spaces for
    underscores, and a name whose last field is not "PATHWAY" becomes
    itself with spaces for underscores. *)
Theorem tcga_shorten_pid_spaces (s : string) :
  tcga_shorten_pid (s +:+ "_PATHWAY") = replace_char "_" " " s
  ∧ (last (Str.split "_" s) ≠ Some "PATHWAY"
     → tcga_shorten_pid s = replace_char "_" " " s).
Proof.
  unfold tcga_shorten_pid. split.
  - rewrite (split_sep_app "_" s "PATHWAY").
    change (Str.split "_" "PATHWAY") with ["PATHWAY"].
    rewrite last_snoc, decide_True by done.
    rewrite removelast_last. apply join_split_replace.
  - intros Hlast. rewrite decide_False by done. apply join_split_replace.
Qed.

Lemma tcga_shorten_pid_spaces_witness :
  last (Str.split "_" "PID_P53_DOWNSTREAM") ≠ Some "PATHWAY"
  ∧ tcga_shorten_pid "PID_P53_DOWNSTREAM" = "PID P53 DOWNSTREAM"
  ∧ tcga_shorten_pid "PID_P53_DOWNSTREAM_PATHWAY" = "PID P53 DOWNSTREAM".
Proof.
  assert (H : last (Str.split "_" "PID_P53_DOWNSTREAM") ≠ Some "PATHWAY")
    by (vm_compute; discriminate).
  split; [exact H|]. split.
  - exact (proj2 (tcga_shorten_pid_spaces "PID_P53_DOWNSTREAM") H).
  - exact (proj1 (tcga_shorten_pid_spaces "PID_P53_DOWNSTREAM")).
Defined.

Lemma split_once_app (c : ascii) s t :
  has_char c s = false → split_once c (s +:+ String c t) = [s; t].
Proof.
  induction s as [|c' s IH]; simpl.
  - by rewrite Ascii.eqb_refl.
  - destruct (Ascii.eqb c' c); [done|]. simpl. by intros ->%IH.
Qed.

Lemma split_once_no_sep (c : ascii) s :
  has_char c s = false → split_once c s = [s].
Proof.
  induction s as [|c' s IH]; simpl; [done|].
  destruct (Ascii.eqb c' c); [done|]. simpl. by intros ->%IH.
Qed.

Lemma substring_prefix (p r : string) :
  String.substring 0 (String.length p) (p +:+ r) = p.
Proof.
  induction p as [|c p IH]; simpl; [by destruct r|]. by rewrite IH.
Qed.

Lemma substring_app_at (a p r : string) :
  String.substring (String.length a) (String.length p) (a +:+ p +:+ r) = p.
Proof.
  induction a as [|c a IH]; [exact (substring_prefix p r) | exact IH].
Qed.

Lemma substring_inside (a b : string) m n :
  m + n ≤ String.length a →
  String.substring m n (a +:+ b) = String.substring m n a.
Proof.
  revert m n. induction a as [|c a IH]; intros m n; simpl.
  - intros Hle. assert (m = 0 ∧ n = 0) as [-> ->] by lia. by destruct b.
  - intros Hle. destruct m as [|m].
    + destruct n as [|n]; [done|]. rewrite (IH 0 n) by lia. done.
    + apply IH. lia.
Qed.

(** The first occurrence of [p] in [label +:+ p +:+ rest] is the one after
    [label], when [p] does not occur in [label] and the first character of
    [p] does not occur again in [p]. *)
Lemma find_after_label (p label rest : string) :
  p ≠ "" → find p label = None →
  (∀ k, 0 < k < String.length p → String.get k p ≠ String.get 0 p) →
  find p (label +:+ p +:+ rest) = Some (String.length label).
Proof.
  intros Hp Hlabel Hfirst. unfold find in *.
  pose proof (substring_app_at label p rest) as Hat.
  destruct (String.index 0 p (label +:+ p +:+ rest)) as [m|] eqn:Hidx.
  - pose proof (String.index_correct1 _ _ _ _ Hidx) as Hm.
    pose proof (String.index_correct2 _ _ _ _ Hidx) as Hmin.
    f_equal.
    destruct (decide (String.length label < m)) as [Hlt|Hge].
    { by destruct (Hmin (String.length label) ltac:(lia) Hlt). }
    destruct (decide (m = String.length label)) as [|Hne]; [done|].
    exfalso.
    destruct (decide (m + String.length p ≤ String.length label)) as [Hin|Hover].
    + rewrite substring_inside in Hm by done.
      by apply (String.index_correct3 0 m p label Hlabel Hp ltac:(lia)).
    + set (k := String.length label - m).
      apply (Hfirst k); [unfold k; lia|].
      rewrite <- Hm at 1. rewrite String.substring_correct1 by (unfold k; lia).
      replace (k + m) with (0 + String.length label) by (unfold k; lia).
      rewrite <- String.append_correct2.
      destruct p; [done|]. reflexivity.
  - by destruct (String.index_correct3 0 (String.length label) p _ Hidx Hp ltac:(lia)).
Qed.

Lemma marker_first_char :
  ∀ k, 0 < k < String.length "- Pseudomonas aeruginosa PAO1" →
       String.get k "- Pseudomonas aeruginosa PAO1"
       ≠ String.get 0 "- Pseudomonas aeruginosa PAO1".
Proof.
  intros k [Hpos Hlt]. simpl in Hlt.
  do 29 (destruct k as [|k]; [first [lia | by vm_compute]|]). lia.
Qed.

(** X6.  A KEGG name [id label- Pseudomonas aeruginosa PAO1...] whose [id]
    holds no space and whose [label] does not hold the organism suffix is
    shortened to [label] followed by "PAO1"; the identifier and whatever
    follows the suffix are dropped. *)
Theorem paeruginosa_shorten_kegg_suffix (id label rest : string) :
  has_char " " id = false →
  find "- Pseudomonas aeruginosa PAO1" label = None →
  paeruginosa_shorten_kegg
    (id +:+ " " +:+ label +:+ "- Pseudomonas aeruginosa PAO1" +:+ rest)
  = label +:+ "PAO1".
Proof.
  intros Hid Hlabel. unfold paeruginosa_shorten_kegg.
  change (" " +:+ ?x) with (String " " x).
  rewrite split_once_app by done. simpl.
  rewrite (find_after_label "- Pseudomonas aeruginosa PAO1" label rest);
    [|done|done|apply marker_first_char].
  unfold take. by rewrite substring_prefix.
Qed.

Lemma paeruginosa_shorten_kegg_suffix_witness :
  has_char " " "pae00010" = false
  ∧ find "- Pseudomonas aeruginosa PAO1" "Glycolysis / Gluconeogenesis " = None
  ∧ paeruginosa_shorten_kegg
      "pae00010 Glycolysis / Gluconeogenesis - Pseudomonas aeruginosa PAO1"
    = "Glycolysis / Gluconeogenesis PAO1".
Proof.
  split; [reflexivity|]. split; [reflexivity|].
  exact (paeruginosa_shorten_kegg_suffix "pae00010"
           "Glycolysis / Gluconeogenesis " "" eq_refl eq_refl).
Defined.

Lemma rstrip_idemp s : rstrip (rstrip s) = rstrip s.
Proof.
  induction s as [|c s IH]; simpl; [done|].
  destruct (rstrip s) as [|c' kept] eqn:Hs.
  - destruct (is_space c) eqn:Hc; simpl; [done|]. by rewrite Hc.
  - simpl in *. by rewrite IH.
Qed.

Lemma lstrip_idemp s : lstrip (lstrip s) = lstrip s.
Proof.
  induction s as [|c s IH]; simpl; [done|].
  destruct (is_space c) eqn:Hc; [done|]. simpl. by rewrite Hc.
Qed.

Lemma lstrip_rstrip s : lstrip s = s → lstrip (rstrip s) = rstrip s.
Proof.
  destruct s as [|c s]; simpl; [done|].
  destruct (is_space c) eqn:Hc.
  - intros Hs. exfalso.
    assert (Hlen : String.length (lstrip s) ≤ String.length s).
    { clear. induction s as [|c s IH]; simpl; [done|].
      destruct (is_space c); simpl; lia. }
    rewrite Hs in Hlen. simpl in Hlen. lia.
  - intros _. destruct (rstrip s); simpl; by rewrite Hc.
Qed.

(** X7.  A KEGG name without the organism suffix is returned without its
    identifier (the text up to the first space) and without white space
    at either end. *)
Theorem paeruginosa_shorten_kegg_plain (id text : string) :
  has_char " " id = false →
  find "- Pseudomonas aeruginosa PAO1" text = None →
  paeruginosa_shorten_kegg (id +:+ " " +:+ text) = strip text
  ∧ lstrip (strip text) = strip text
  ∧ rstrip (strip text) = strip text.
Proof.
  intros Hid Htext. unfold paeruginosa_shorten_kegg.
  change (" " +:+ ?x) with (String " " x).
  rewrite split_once_app by done. simpl. rewrite Htext.
  split; [done|]. unfold strip. split.
  - apply lstrip_rstrip, lstrip_idemp.
  - apply rstrip_idemp.
Qed.

Lemma paeruginosa_shorten_kegg_plain_witness :
  has_char " " "pae02020" = false
  ∧ find "- Pseudomonas aeruginosa PAO1" " Two-component system " = None
  ∧ paeruginosa_shorten_kegg "pae02020  Two-component system "
    = "Two-component system".
Proof.
  split; [reflexivity|]. split; [reflexivity|].
  exact (proj1 (paeruginosa_shorten_kegg_plain "pae02020"
                  " Two-component system " eq_refl eq_refl)).
Defined.

End ShortenFacts.

(** * Properties of the PID pathway definitions script *)

Module PidFacts.
Import StrOps PidDefinitions StrFacts.

Lemma split_two_fields sep s :
  has_char sep s = true →
  ∃ field field' fields, Str.split sep s = field :: field' :: fields.
Proof.
  induction s as [|c s IH]; simpl; [done|].
  destruct (Ascii.eqb c sep); simpl.
  - intros _. pose proof (split_not_nil sep s).
    destruct (Str.split sep s) as [|field' fields]; [done|]. eauto.
  - intros (field & field' & fields & ->)%IH. eauto.
Qed.

Lemma convert_row_IndexError row :
  convert_row row = IndexError ↔ has_char tab row = false.
Proof.
  unfold convert_row. split.
  - destruct (has_char tab row) eqn:Htab; [|done].
    destruct (split_two_fields tab row Htab) as (f & f' & fs & ->). simpl.
    repeat case_bool_decide; done.
  - intros Htab. by rewrite split_no_sep.
Qed.

(** X8.  The script stops on an [IndexError] exactly when some row of the
    input holds no tab; a blank line is such a row. *)
Theorem convert_rows_IndexError (rows : list string) :
  (convert_rows rows).2 = true
  ↔ Exists (λ row, has_char tab row = false) rows.
Proof.
  induction rows as [|row rows IH]; simpl.
  - split; [done | by intros ?%Exists_nil].
  - rewrite Exists_cons, <- IH, <- convert_row_IndexError.
    destruct (convert_row row) eqn:Hrow; simpl.
    + destruct (convert_rows rows). simpl.
      split; [by right | by intros [?|?]].
    + split; [by right | by intros [?|?]].
    + split; [by left | done].
Qed.

Lemma pretty_N_go_no_tab x s :
  has_char tab s = false → has_char tab (pretty_N_go x s) = false.
Proof.
  revert s. induction (N.lt_wf_0 x) as [x _ IH]; intros s Hs.
  assert (x = 0 ∨ 0 < x)%N as [->|?] by lia.
  - by rewrite pretty_N_go_0.
  - rewrite pretty_N_go_step by done. apply IH.
    { by apply N.div_lt. }
    simpl. rewrite Hs. unfold pretty_N_char. by repeat case_match.
Qed.

Lemma pretty_nat_no_tab (n : nat) : has_char tab (pretty n) = false.
Proof.
  unfold pretty, pretty_nat, pretty, pretty_N.
  case_decide; [done|]. by apply pretty_N_go_no_tab.
Qed.

(** X9.  For a row of tab-separated fields [pathway], [source] and one or
    more genes, where [source] holds "/PID", the script writes the pathway,
    the number of genes and the genes joined by semicolons, separated by
    tabs and with no line end of its own; splitting what was written at the
    tabs gives these three fields back, and splitting the third at the
    semicolons gives the genes back when no gene holds a semicolon. *)
Theorem convert_row_format (pathway source : string) (genes : list string) :
  genes ≠ [] →
  Forall (λ field, has_char tab field = false) (pathway :: source :: genes) →
  is_Some (find "/PID" source) →
  let text :=
    join (String tab "") [pathway; pretty (length genes); join ";" genes] in
  convert_row (join (String tab "") (pathway :: source :: genes))
  = Written text
  ∧ Str.split tab text = [pathway; pretty (length genes); join ";" genes]
  ∧ (Forall (λ gene, has_char ";" gene = false) genes
     → Str.split ";" (join ";" genes) = genes).
Proof.
  intros Hne Hall Hpid text. split_and!.
  - unfold convert_row. rewrite split_join by done. simpl.
    rewrite bool_decide_true by done.
    rewrite bool_decide_true by (by destruct genes). done.
  - unfold text. apply split_join; [done|].
    apply Forall_cons_1 in Hall as [Hp Hall].
    apply Forall_cons_1 in Hall as [_ Hgenes].
    repeat constructor; [done | apply pretty_nat_no_tab |].
    by apply has_char_join.
  - intros Hsemi. by apply (split_join ";"%char).
Qed.

Lemma convert_row_format_witness :
  let row :=
    join (String tab "")
      ["PID_P53_PATHWAY"; "http://pid/PID_P53"; "TP53"; "MDM2"] in
  convert_row row
  = Written (join (String tab "") ["PID_P53_PATHWAY"; "2"; "TP53;MDM2"]).
Proof.
  intros row.
  refine (proj1 (convert_row_format "PID_P53_PATHWAY" "http://pid/PID_P53"
                   ["TP53"; "MDM2"] _ _ _)).
  - done.
  - repeat constructor.
  - by eexists.
Defined.

End PidFacts.

(** * Further properties of [convert_to_gene_object_ids] *)

Module WebDbRoundTrip.
Import StrOps WebDb WebDbFacts StrFacts.

Section convert.
Context {ObjectId : Type}.
Implicit Types (m : gmap string ObjectId) (o : pyobj).

Lemma iteration_of_elements (genes : gset string) :
  iteration_of genes (elements genes).
Proof.
  split; [apply NoDup_elements|]. intros gene. apply elem_of_elements.
Qed.

(** The ObjectIds that the loop collects are the same, each as often, for
    every iteration order of the same set. *)
Lemma convert_in_order_Permutation (genes genes' : gset string) order order' m :
  genes = genes' → iteration_of genes order → iteration_of genes' order' →
  convert_in_order order m ≡ₚ convert_in_order order' m.
Proof.
  intros <- [Hnd Hin] [Hnd' Hin']. unfold convert_in_order.
  rewrite !foldl_append_id. simpl. apply omap_Permutation.
  apply NoDup_Permutation; [done | done |].
  intros gene. by rewrite Hin, Hin'.
Qed.

(** X10.  A string of one or more gene identifiers joined by semicolons,
    none of which holds a semicolon, is converted to the ObjectIds of the
    set of these identifiers, each as often: the two results are the same
    up to their order, whatever the orders in which the two sets are
    iterated. *)
Theorem convert_joined_genes (genes : list string) m (order order' : list string) :
  genes ≠ [] → Forall (λ gene, has_char ";" gene = false) genes →
  iteration_of (list_to_set (Str.split ";" (join ";" genes))) order →
  iteration_of (list_to_set genes) order' →
  convert_in_order order m ≡ₚ convert_in_order order' m
  ∧ convert_to_gene_object_ids (PyStr (join ";" genes)) m
    ≡ₚ convert_in_order order m
  ∧ convert_to_gene_object_ids (PySet (list_to_set genes)) m
    ≡ₚ convert_in_order order' m.
Proof.
  intros Hne Hall Horder Horder'.
  pose proof (split_join ";"%char genes Hne Hall) as Hsplit.
  split_and!.
  - eapply convert_in_order_Permutation; [|exact Horder|exact Horder'].
    by rewrite Hsplit.
  - eapply (convert_in_order_Permutation _ _ (elements _));
      [reflexivity | apply iteration_of_elements | exact Horder].
  - eapply (convert_in_order_Permutation _ _ (elements _));
      [reflexivity | apply iteration_of_elements | exact Horder'].
Qed.

Lemma length_omap_filter {X Y} (f : X → option Y) (l : list X) :
  length (omap f l) = length (filter (λ x, is_Some (f x)) l).
Proof.
  induction l as [|x l IH]; csimpl; [done|].
  rewrite filter_cons. destruct (f x) as [y|] eqn:Hfx.
  - rewrite decide_True by eauto. simpl. by rewrite IH.
  - rewrite decide_False by (by intros [??]). done.
Qed.

(** X11.  For a string or a set, the result has one ObjectId for every
    distinct gene of the input that has an entry in the map, however often
    the gene is repeated in the string; when the map gives distinct genes
    distinct ObjectIds, no ObjectId is returned twice. *)
Theorem convert_one_id_per_gene o m (genes : gset string) :
  named_genes o = Some genes →
  length (convert_to_gene_object_ids o m)
  = size (filter (λ gene, is_Some (m !! gene)) genes)
  ∧ ((∀ g1 g2 oid, g1 ∈ genes → g2 ∈ genes →
        m !! g1 = Some oid → m !! g2 = Some oid → g1 = g2)
     → NoDup (convert_to_gene_object_ids o m)).
Proof.
  intros Hgenes.
  assert (Hconv : convert_to_gene_object_ids o m
                  = omap (λ gene, m !! gene) (elements genes)).
  { destruct o as [s|gs| | |l]; simpl in Hgenes; try discriminate;
      injection Hgenes as <-; unfold convert_to_gene_object_ids;
      by rewrite foldl_append_id. }
  rewrite Hconv. split.
  - rewrite length_omap_filter. unfold size, set_size. simpl.
    apply Permutation_length, NoDup_Permutation.
    + apply NoDup_filter, NoDup_elements.
    + apply NoDup_elements.
    + intros gene. rewrite list_elem_of_filter, !elem_of_elements.
      by rewrite elem_of_filter.
  - clear Hconv. intros Hinj. pose proof (NoDup_elements genes) as Hnd.
    assert (Hin : ∀ g, g ∈ elements genes → g ∈ genes)
      by (intros g; apply elem_of_elements).
    induction Hnd as [|g l Hg Hnd IH]; csimpl; [constructor|].
    destruct (m !! g) as [oid|] eqn:Hm.
    + constructor.
      * unfold not. intros Hex. apply list_elem_of_omap in Hex as (g' & Hg' & Hm').
        assert (g = g') as <-; [|done].
        apply (Hinj g g' oid); auto using list_elem_of_here,
          list_elem_of_further.
      * apply IH. intros g' Hg'. apply Hin. by apply list_elem_of_further.
    + apply IH. intros g' Hg'. apply Hin. by apply list_elem_of_further.
Qed.

End convert.

Lemma convert_joined_genes_witness :
  convert_in_order ["PA0001"; "PA0002"; "PA0003"]
    (<["PA0002" := 7%Z]> (<["PA0003" := 9%Z]> ∅))
  ≡ₚ convert_in_order ["PA0003"; "PA0001"; "PA0002"]
       (<["PA0002" := 7%Z]> (<["PA0003" := 9%Z]> ∅)).
Proof.
  refine (proj1 (convert_joined_genes ["PA0001"; "PA0002"; "PA0003"] _
                   ["PA0001"; "PA0002"; "PA0003"]
                   ["PA0003"; "PA0001"; "PA0002"] _ _ _ _)).
  - done.
  - repeat constructor.
  - split; [compute_done|]. intros gene.
    rewrite elem_of_list_to_set. reflexivity.
  - split; [compute_done|]. intros gene.
    rewrite elem_of_list_to_set, !elem_of_cons. tauto.
Defined.

Lemma convert_one_id_per_gene_witness :
  length (convert_to_gene_object_ids (PyStr "PA0001;PA0002;PA0001")
            (<["PA0001" := 7%Z]> ∅))
  = size (filter (λ gene, is_Some ((<["PA0001" := 7%Z]> ∅ : gmap string Z)
                                     !! gene))
            (list_to_set ["PA0001"; "PA0002"; "PA0001"] : gset string)).
Proof.
  exact (proj1 (convert_one_id_per_gene (PyStr "PA0001;PA0002;PA0001")
                  (<["PA0001" := 7%Z]> ∅) _ eq_refl)).
Defined.

End WebDbRoundTrip.

(** * Further properties of [get_terms] *)

Module TribePaging.
Import Tribe TribeFacts.

(** X12.  'Need to increase the limit.' is printed exactly when the
    response holds [limit] genesets, whether or not they are kept. *)
Theorem get_terms_limit_warning (genesets : list geneset) :
  (get_terms_run genesets).2 = true ↔ length genesets = limit.
Proof.
  unfold get_terms_run. rewrite get_terms_loop. simpl. apply Nat.eqb_eq.
Qed.

(** X13.  [get_terms] keeps the genesets in the order of the response, and
    the result for a response in two parts is the result for the first
    part followed by the result for the second. *)
Theorem get_terms_in_order (genesets more : list geneset) :
  new_title <$> get_terms genesets `sublist_of` title <$> genesets
  ∧ get_terms (genesets ++ more) = get_terms genesets ++ get_terms more.
Proof.
  rewrite !get_terms_kept. split.
  - induction genesets as [|g gs IH]; csimpl; [constructor|].
    unfold kept at 1. destruct (tip g) as [t|]; [|by constructor].
    destruct ((100 <? length (genes t)) || (length (genes t) <? 5));
      simpl; by constructor.
  - induction genesets as [|g gs IH]; csimpl; [done|].
    rewrite IH. by destruct (kept g).
Qed.

End TribePaging.

(** * Further properties of [process] *)

Module ProcessErrors.
Import Pandas GeneSignature Network ProcessFacts.

Section process.
Context (with_correction :
  Series → PathwayDefinitions → signature_function → R → bool → bool
  → exn + enrichment).
Context (no_correction :
  Series → PathwayDefinitions → signature_function → R → bool
  → exn + enrichment).
Context (pathway_definitions : PathwayDefinitions)
        (partial_function_signature : signature_function)
        (alpha : R) (correct_all_genes metadata : bool).

Local Abbreviation enriched :=
  (feature_enrichment with_correction no_correction pathway_definitions
     partial_function_signature alpha correct_all_genes metadata).
Local Abbreviation body :=
  (process_feature with_correction no_correction).

(** X14.  Called while the global name [crosstalk_correction] is unbound,
    [process] raises [NameError] when the weight matrix has a feature
    column, and returns an empty table when it has none. *)
Theorem process_unbound_global
    (name : string) (weight_matrix : WeightMatrix) (overlap_correction : bool) :
  process with_correction no_correction None (name, weight_matrix)
    pathway_definitions partial_function_signature alpha overlap_correction
    correct_all_genes metadata
  = match weight_matrix with
    | [] => inr {| filename := name; significant_pathways := [];
                   feature_metadata := ∅ |}
    | _ :: _ => inl (NameError "crosstalk_correction")
    end.
Proof. by destruct weight_matrix as [|[feature weights] wm]. Qed.

Lemma foldM_inl branch (weight_matrix : WeightMatrix) st e b :
  branch = inr b →
  foldM (body branch pathway_definitions partial_function_signature alpha
           correct_all_genes metadata) st weight_matrix = inl e
  ↔ ∃ pre column post,
      weight_matrix = pre ++ column :: post
      ∧ Forall (λ c, ∃ out, enriched b c.2 = inr out) pre
      ∧ enriched b column.2 = inl e.
Proof.
  intros ->. revert st.
  induction weight_matrix as [|[feature weights] wm IH]; intros [df fm].
  - simpl. split; [done|]. intros (pre & column & post & Heq & _).
    by destruct pre.
  - simpl. fold (enriched b weights).
    destruct (enriched b weights) as [e'|[feature_df additional]] eqn:Hout.
    + simpl. split.
      * intros [= ->]. exists [], (feature, weights), wm.
        split_and!; [done | constructor | done].
      * intros (pre & column & post & Heq & Hpre & Hcol).
        destruct pre as [|c pre]; simplify_eq/=.
        -- congruence.
        -- apply Forall_cons_1 in Hpre as [[out Hc] _]. simpl in Hc.
           congruence.
    + simpl. destruct feature_df as [feature_df|]; simpl; rewrite IH;
        (split;
         [ intros (pre & column & post & -> & Hpre & Hcol);
           exists ((feature, weights) :: pre), column, post;
           split_and!; [done | constructor; [by eexists | done] | done]
         | intros (pre & column & post & Heq & Hpre & Hcol);
           destruct pre as [|c pre]; simplify_eq/=;
           [ congruence
           | apply Forall_cons_1 in Hpre as [_ Hpre];
             by exists pre, column, post ] ]).
Qed.

(** X15.  With the global name bound, [process] raises exactly when the
    enrichment raises for some feature, and then with the error of the
    first feature for which it raises; it returns a result when the
    enrichment returns for every feature. *)
Theorem process_raises_first_error
    (name : string) (weight_matrix : WeightMatrix)
    (b overlap_correction : bool) (e : exn) :
  process with_correction no_correction (Some b) (name, weight_matrix)
    pathway_definitions partial_function_signature alpha overlap_correction
    correct_all_genes metadata = inl e
  ↔ ∃ pre column post,
      weight_matrix = pre ++ column :: post
      ∧ Forall (λ c, ∃ out, enriched b c.2 = inr out) pre
      ∧ enriched b column.2 = inl e.
Proof.
  unfold process, process_with.
  rewrite <- (foldM_inl (read_crosstalk_correction (Some b)) weight_matrix
                ([], ∅) e b eq_refl).
  destruct (foldM _ _ _) as [e'|[df fm]]; simpl.
  - split; by intros [= ->].
  - split; intros Heq; discriminate Heq.
Qed.

Lemma metadata_loop branch (weight_matrix : WeightMatrix) df fm df' fm' b :
  branch = inr b →
  foldM (body branch pathway_definitions partial_function_signature alpha
           correct_all_genes metadata) (df, fm) weight_matrix
  = inr (df', fm') →
  ∀ feature info, fm' !! feature = Some info →
    fm !! feature = Some info
    ∨ ∃ weights feature_df,
        (feature, weights) ∈ weight_matrix
        ∧ enriched b weights = inr (Some feature_df, Some info).
Proof.
  intros ->. revert df fm.
  induction weight_matrix as [|[feature weights] wm IH]; intros df fm.
  - simpl. intros [= <- <-] f info Hf. by left.
  - simpl. fold (enriched b weights).
    destruct (enriched b weights) as [e'|[feature_df additional]] eqn:Hout;
      [done|]. simpl.
    destruct feature_df as [feature_df|]; simpl; intros Hrest f info Hf;
      destruct (IH _ _ Hrest f info Hf) as [Hold|(w & fdf & Hin & Hw)].
    + destruct additional as [a|]; [|by left].
      destruct (decide (feature = f)) as [->|Hne].
      * rewrite lookup_insert_eq in Hold. injection Hold as ->.
        right. exists weights, feature_df. split; [left | done].
      * rewrite lookup_insert_ne in Hold by done. by left.
    + right. exists w, fdf. split; [by right | done].
    + by left.
    + right. exists w, fdf. split; [by right | done].
Qed.

(** X16.  The metadata that [process] returns for a feature is the one the
    enrichment returned for a column of that label, together with a table
    of significant pathways: a feature for which the enrichment returned
    no table has no metadata, whatever metadata came with it. *)
Theorem process_metadata_needs_table
    (name : string) (weight_matrix : WeightMatrix)
    (b overlap_correction : bool) (results : model_results)
    (feature : Z) (info : metadata_info) :
  process with_correction no_correction (Some b) (name, weight_matrix)
    pathway_definitions partial_function_signature alpha overlap_correction
    correct_all_genes metadata = inr results →
  feature_metadata results !! feature = Some info →
  ∃ weights feature_df,
    (feature, weights) ∈ weight_matrix
    ∧ enriched b weights = inr (Some feature_df, Some info).
Proof.
  unfold process, process_with.
  destruct (foldM _ _ _) as [e'|[df fm]] eqn:Hloop; [done|]. simpl.
  intros [= <-] Hf. simpl in Hf.
  destruct (metadata_loop _ _ _ _ _ _ b eq_refl Hloop feature info Hf)
    as [Hempty|Hcol]; [|done].
  by rewrite lookup_empty in Hempty.
Qed.

End process.

Lemma process_metadata_needs_table_witness :
  let info := {| positive_signature := {["geneA"]};
                 negative_signature := ∅;
                 pathway_definitions := ∅ |} in
  let with_correction :=
    (λ _ _ _ _ _ _, inr (Some [], Some info))
    : Series → PathwayDefinitions → signature_function → R → bool → bool
      → exn + enrichment in
  ∃ weights feature_df,
    (3%Z, weights) ∈ [(3%Z, [("geneA", 1%R)])]
    ∧ feature_enrichment with_correction example_no_correction ∅
        (define_NMF_gene_signature 2) (5 / 100) true true true weights
      = inr (Some feature_df, Some info).
Proof.
  intros info with_correction.
  eapply (process_metadata_needs_table with_correction example_no_correction
            ∅ (define_NMF_gene_signature 2) (5 / 100) true true
            "model_0" [(3%Z, [("geneA", 1%R)])] true false _ 3%Z info);
    reflexivity.
Defined.

End ProcessErrors.

(** * Further properties of the script *)

Module ScriptRuns.
Import Pandas GeneSignature Network ScriptFacts.

Section script.
Context (c : collaborators).

(** X17.  On every dict that [docopt] builds from the usage text, the
    script ends in an error before it has created a directory, loaded a
    file or entered the parallel section. *)
Theorem main_stops_before_any_effect (arguments : gmap string argval) :
  docopt_result arguments = true →
  ∃ e, main c arguments = ([], inl e).
Proof.
  intros Hdoc.
  destruct (docopt_result_str arguments "--signature" Hdoc) as [name H6];
    [compute_done|].
  destruct (decide (name ∈ dom GENE_SIGNATURE_DEFINITIONS)) as [Hin|Hout].
  - destruct (main_known_signature c arguments name Hdoc H6 Hin)
      as (e & -> & _). by exists e.
  - destruct (docopt_result_key arguments "<models-dir>" Hdoc) as [a H1];
      [compute_done|].
    destruct (docopt_result_key arguments "<output-dir>" Hdoc) as [b H2];
      [compute_done|].
    destruct (docopt_result_key arguments "<pathway-definitions>" Hdoc)
      as [d H3]; [compute_done|].
    destruct (docopt_result_str arguments "<n-genes>" Hdoc) as [g H4];
      [compute_done|].
    destruct (docopt_result_str arguments "--n-features" Hdoc) as [k H5];
      [compute_done|].
    assert (Hno : contains GENE_SIGNATURE_DEFINITIONS (AStr name) = false).
    { apply not_true_is_false. by rewrite contains_registry. }
    rewrite (main_unknown_signature c arguments a b d g k (AStr name)
               H1 H2 H3 H4 H5 H6 Hno).
    by eexists.
Qed.

End script.

Lemma main_stops_before_any_effect_witness :
  docopt_result (example_arguments "NMF") = true
  ∧ ∃ e, main example_collaborators (example_arguments "NMF") = ([], inl e).
Proof.
  assert (Hdoc : docopt_result (example_arguments "NMF") = true)
    by (vm_compute; reflexivity).
  split; [exact Hdoc|].
  exact (main_stops_before_any_effect example_collaborators
           (example_arguments "NMF") Hdoc).
Defined.

End ScriptRuns.

(** * Properties of the edge page computation *)

Module SortFacts.
Import EdgePage.

Section sorted.
Context {A : Type} (key : A → R).

Lemma insert_descending_Permutation (x : A) (l : list A) :
  insert_descending key x l ≡ₚ x :: l.
Proof.
  induction l as [|y l IH]; simpl; [done|].
  destruct (Rlt_dec (key x) (key y)); [|done].
  rewrite IH. apply Permutation_swap.
Qed.

Lemma sorted_descending_Permutation (l : list A) :
  sorted_descending key l ≡ₚ l.
Proof.
  induction l as [|x l IH]; simpl; [done|].
  by rewrite insert_descending_Permutation, IH.
Qed.

Lemma insert_descending_sorted (x : A) (l : list A) :
  StronglySorted (λ a b, key a >= key b)%R l →
  StronglySorted (λ a b, key a >= key b)%R (insert_descending key x l).
Proof.
  induction 1 as [|y l Hl IH Hy]; simpl.
  - repeat constructor.
  - destruct (Rlt_dec (key x) (key y)) as [Hlt|Hge].
    + constructor; [done|].
      rewrite insert_descending_Permutation. constructor; [lra | done].
    + constructor; [by constructor|]. constructor; [lra|].
      eapply Forall_impl; [exact Hy|]. simpl. intros z Hz. lra.
Qed.

Lemma sorted_descending_sorted (l : list A) :
  StronglySorted (λ a b, key a >= key b)%R (sorted_descending key l).
Proof.
  induction l as [|x l IH]; simpl; [constructor|].
  by apply insert_descending_sorted.
Qed.

End sorted.

Lemma insert_ranks (x : nat * R) (l : list (nat * R)) :
  Forall (λ y, x.1 < y.1) l →
  StronglySorted ranks_before l →
  StronglySorted ranks_before (insert_descending snd x l).
Proof.
  intros Hx Hl. induction Hl as [|y l Hl IH Hy]; simpl.
  - repeat constructor.
  - apply Forall_cons_1 in Hx as [Hxy Hx].
    destruct (Rlt_dec x.2 y.2) as [Hlt|Hge].
    + constructor; [by apply IH|].
      rewrite insert_descending_Permutation.
      constructor; [by left | done].
    + constructor; [by constructor|].
      assert (Hxy' : ranks_before x y).
      { destruct (Rle_lt_or_eq_dec y.2 x.2) as [?|Heq]; [lra | by left |].
        right. by split. }
      constructor; [done|].
      eapply Forall_impl; [exact Hy|]. simpl. intros z Hz.
      unfold ranks_before in *. destruct Hxy' as [?|[? ?]], Hz as [?|[? ?]].
      all: try (left; lra).
      right. split; [congruence | lia].
Qed.

Lemma sorted_ranks (l : list (nat * R)) :
  StronglySorted (λ a b : nat * R, a.1 < b.1) l →
  StronglySorted ranks_before (sorted_descending snd l).
Proof.
  induction 1 as [|x l Hl IH Hx]; simpl; [constructor|].
  apply insert_ranks; [|done].
  by rewrite sorted_descending_Permutation.
Qed.

Lemma enumerate_increasing {A} (l : list A) (k : nat) :
  StronglySorted (λ a b : nat * A, a.1 < b.1) (imap (λ i, pair (k + i)) l).
Proof.
  revert k. induction l as [|x l IH]; intros k; simpl; [constructor|].
  constructor.
  - rewrite (imap_ext _ (λ i, pair (S k + i))) by (intros; simpl; f_equal; lia).
    apply IH.
  - apply Forall_forall. intros [i y] Hin.
    apply elem_of_lookup_imap in Hin as (j & z & [= -> ->] & _). simpl. lia.
Qed.

(** X18.  [index_sort] returns every position of the list with its
    element, each once, greater elements first and equal elements in the
    order of the list. *)
Theorem index_sort_stable_descending (list_to_sort : list R) :
  index_sort list_to_sort ≡ₚ enumerate list_to_sort
  ∧ StronglySorted ranks_before (index_sort list_to_sort).
Proof.
  unfold index_sort. split; [apply sorted_descending_Permutation|].
  apply sorted_ranks. apply (enumerate_increasing list_to_sort 0).
Qed.

End SortFacts.

Module HeatmapFacts.
Import EdgePage SortFacts.

(** The squares of the column of rank [rank] for the sample row [row]. *)
Local Abbreviation squares :=
  (λ (rank : nat) (row : list R),
     imap (λ gene_index gene_expression,
             {| col_index := rank; row_index := gene_index;
                value := gene_expression |}) row).

Section heatmap.
Context (self : EdgeInfo) (expression_matrix : list (list R)).

Lemma heatmap_loop (entries : list (nat * R)) (k : nat) hm labels hm' labels' :
  foldM (heatmap_column self expression_matrix) (hm, labels)
        (imap (λ i, pair (k + i)) entries) = inr (hm', labels') →
  ∃ new_labels rows,
    Forall2 (λ entry label,
               sample_labels (db self) !! entry.1 = Some label)
            entries new_labels
    ∧ Forall2 (λ entry row, expression_matrix !! entry.1 = Some row)
              entries rows
    ∧ labels' = labels ++ new_labels
    ∧ hm' = hm ++ mjoin (imap (λ i, squares (k + i)) rows).
Proof.
  revert k hm labels.
  induction entries as [|[index score] entries IH]; intros k hm labels.
  - simpl. intros [= <- <-]. exists [], [].
    by rewrite !app_nil_r.
  - simpl.
    destruct (sample_labels (db self) !! index) as [label|] eqn:Hlabel;
      [|done]. simpl.
    destruct (expression_matrix !! index) as [row|] eqn:Hrow; [|done]. simpl.
    rewrite (imap_ext _ (λ i, pair (S k + i)))
      by (intros; simpl; by rewrite Nat.add_succ_r).
    intros (new_labels & rows & Hl & Hr & -> & ->)%IH.
    exists (label :: new_labels), (row :: rows). split_and!.
    + by constructor.
    + by constructor.
    + by rewrite <- app_assoc.
    + rewrite <- app_assoc. simpl. rewrite Nat.add_0_r. do 3 f_equal.
      apply imap_ext. intros i r _. simpl. by rewrite Nat.add_succ_r.
Qed.

(** X19.  When [_get_heatmap_data] returns, the sample labels are those of
    the given positions, in the given order, and the heatmap holds, for
    every given position in order, one square per gene of that sample's
    row: its column is the rank of the position, its row the position of
    the gene, its value the expression. *)
Theorem get_heatmap_data_layout
    (index_sample_scores : list (nat * R)) heatmap_data labels :
  get_heatmap_data self index_sample_scores expression_matrix
  = inr (heatmap_data, labels) →
  ∃ rows,
    Forall2 (λ entry label,
               sample_labels (db self) !! entry.1 = Some label)
            index_sample_scores labels
    ∧ Forall2 (λ entry row, expression_matrix !! entry.1 = Some row)
              index_sample_scores rows
    ∧ heatmap_data = mjoin (imap squares rows)
    ∧ Forall (λ square, col_index square < length index_sample_scores)
             heatmap_data.
Proof.
  unfold get_heatmap_data, enumerate. intros Hrun.
  destruct (heatmap_loop index_sample_scores 0 [] [] _ _ Hrun)
    as (new_labels & rows & Hl & Hr & -> & ->).
  exists rows. simpl. split_and!; try done.
  apply Forall_forall. intros square Hin.
  apply list_elem_of_join in Hin as (column & Hin & Hcol).
  apply elem_of_lookup_imap in Hcol as (rank & row & -> & Hrank).
  apply elem_of_lookup_imap in Hin as (j & e & -> & _). simpl.
  apply lookup_lt_Some in Hrank. by rewrite (Forall2_length _ _ _ Hr).
Qed.

Lemma heatmap_loop_succeeds (entries : list (nat * R)) (k : nat) st :
  (∃ r, foldM (heatmap_column self expression_matrix) st
          (imap (λ i, pair (k + i)) entries) = inr r)
  ↔ Forall (λ entry, is_Some (sample_labels (db self) !! entry.1)
                      ∧ is_Some (expression_matrix !! entry.1)) entries.
Proof.
  revert k st.
  induction entries as [|[index score] entries IH]; intros k [hm labels].
  - simpl. split; [constructor | by eexists].
  - simpl. rewrite Forall_cons. simpl.
    destruct (sample_labels (db self) !! index) as [label|]; simpl.
    2: { split; [by intros [? ?] | by intros [[[? ?] _] _]]. }
    destruct (expression_matrix !! index) as [row|]; simpl.
    2: { split; [by intros [? ?] | by intros [[_ [? ?]] _]]. }
    rewrite (imap_ext _ (λ i, pair (S k + i)))
      by (intros; simpl; by rewrite Nat.add_succ_r).
    rewrite IH. split; [by eauto | by intros [_ ?]].
Qed.

(** X20.  [_get_heatmap_data] returns exactly when every given position
    has a sample label in the database and a row in the expression
    matrix; otherwise it raises. *)
Theorem get_heatmap_data_returns (index_sample_scores : list (nat * R)) :
  (∃ r, get_heatmap_data self index_sample_scores expression_matrix = inr r)
  ↔ Forall (λ entry, is_Some (sample_labels (db self) !! entry.1)
                      ∧ is_Some (expression_matrix !! entry.1))
           index_sample_scores.
Proof. apply (heatmap_loop_succeeds index_sample_scores 0). Qed.

End heatmap.

Lemma get_heatmap_data_layout_witness :
  let self := {| db := {| genes := [];
                          sample_labels := <[0 := "s0"]> (<[1 := "s1"]> ∅);
                          signatures_with_gene := λ _, 0 |};
                 n_total_features := 300; keep_n_samples := 20;
                 keep_n_genes := 20 |} in
  ∃ heatmap_data,
    get_heatmap_data self [(1, 2%R); (0, 1%R)] [[1%R; 5%R]; [2%R; 7%R]]
    = inr (heatmap_data, ["s1"; "s0"])
    ∧ Forall (λ square, col_index square < 2) heatmap_data.
Proof.
  intros self. eexists. split; [reflexivity|].
  destruct (get_heatmap_data_layout self [[1%R; 5%R]; [2%R; 7%R]]
              [(1, 2%R); (0, 1%R)] _ _ eq_refl) as (rows & _ & _ & _ & Hcol).
  exact Hcol.
Defined.

End HeatmapFacts.

Module EdgePageFacts.
Import EdgePage SortFacts HeatmapFacts.

(** The sum of the odds ratios of a list. *)
Local Abbreviation odds_sum :=
  (λ l : list (string * R * nat), Pandas.Rsum ((λ t, t.1.2) <$> l)).

Lemma foldM_not {A B} (f : A → B → error + A) (a : A) (l : list B) e :
  (∀ a x, f a x ≠ inl e) → foldM f a l ≠ inl e.
Proof.
  intros Hf. revert a. induction l as [|x l IH]; intros a; simpl; [done|].
  destruct (f a x) as [e'|a'] eqn:Hfx; simpl; [|apply IH].
  intros [= ->]. by apply (Hf a x).
Qed.

Lemma mapM_not {A B} (f : A → error + B) (l : list A) e :
  (∀ x, f x ≠ inl e) → mapM f l ≠ inl e.
Proof.
  intros Hf. induction l as [|x l IH]; simpl; [done|].
  destruct (f x) as [e'|y] eqn:Hfx; simpl.
  - intros [= ->]. by apply (Hf x).
  - destruct (mapM f l) as [e'|ys]; simpl; [|done].
    intros [= ->]. by apply IH.
Qed.

Lemma mapM_length {A B} (f : A → error + B) (l : list A) ys :
  mapM f l = inr ys → length ys = length l.
Proof.
  revert ys. induction l as [|x l IH]; intros ys; simpl.
  - by intros [= <-].
  - destruct (f x) as [e|y]; simpl; [done|].
    destruct (mapM f l) as [e|ys']; simpl; [done|].
    intros [= <-]. simpl. f_equal. by apply IH.
Qed.

Section page.
Context (self : EdgeInfo).

Lemma rows_loop (l : list (string * R * nat))
    (matrix matrix' : list (list R)) (total total' : R) :
  foldM (expression_row_step self) (matrix, total) l = inr (matrix', total') →
  matrix' = matrix ++ expression_rows self l
  ∧ total' = (total + odds_sum l)%R.
Proof.
  revert matrix total.
  induction l as [|[[name odds] owner] l IH]; intros matrix total.
  - simpl. intros [= <- <-]. rewrite app_nil_r. split; [done|].
    unfold Pandas.Rsum. simpl. ring.
  - simpl. unfold expression_rows. csimpl. fold (expression_rows self l).
    destruct (find_gene_by_name (db self) name) as [doc|]; [|done]. simpl.
    intros [-> ->]%IH. rewrite <- app_assoc. split; [done|].
    unfold Pandas.Rsum, fmap. simpl. ring.
Qed.

Lemma slice_to_length {A} (k : Z) (l : list A) :
  (0 <= k)%Z → length (slice_to k l) = Z.to_nat k `min` length l.
Proof.
  intros Hk. unfold slice_to. rewrite (proj2 (Z.leb_le 0 k) Hk).
  apply length_take.
Qed.

Lemma slice_from_neg_length {A} (k : Z) (l : list A) :
  (0 <= k)%Z →
  length (slice_from (- k) l)
  = if decide (k = 0%Z) then length l else Z.to_nat k `min` length l.
Proof.
  intros Hk. unfold slice_from. case_decide as Hz.
  - subst k. simpl. by rewrite drop_0.
  - rewrite (proj2 (Z.leb_gt 0 (- k))) by lia.
    rewrite length_drop, Z.opp_involutive. lia.
Qed.

Lemma heatmap_labels_length matrix entries hm labels :
  get_heatmap_data self entries matrix = inr (hm, labels) →
  length labels = length entries.
Proof.
  unfold get_heatmap_data, enumerate. intros Hrun.
  destruct (heatmap_loop self matrix entries 0 [] [] _ _ Hrun)
    as (new_labels & rows & Hl & _ & -> & _).
  simpl. symmetry. by eapply Forall2_length.
Qed.

Lemma index_sort_length (l : list R) : length (index_sort l) = length l.
Proof.
  unfold index_sort. rewrite sorted_descending_Permutation.
  apply length_imap.
Qed.

(** X21.  For [keep_n_samples >= 0], a page lists [keep_n_samples] most
    expressed samples, or all samples if there are fewer; it lists as many
    least expressed samples, except that for [keep_n_samples = 0] it lists
    all samples as least expressed. *)
Theorem edge_page_data_sample_counts
    (gene_odds_ratio_list : list (string * R * nat)) (p : page) :
  (0 <= keep_n_samples self)%Z →
  edge_page_data self gene_odds_ratio_list = inr (Page p) →
  length (most_expressed_samples p)
  = Z.to_nat (keep_n_samples self) `min` n_samples self gene_odds_ratio_list
  ∧ length (least_expressed_samples p)
    = if decide (keep_n_samples self = 0%Z)
      then n_samples self gene_odds_ratio_list
      else Z.to_nat (keep_n_samples self)
             `min` n_samples self gene_odds_ratio_list.
Proof.
  intros Hkeep. unfold edge_page_data, n_samples.
  destruct gene_odds_ratio_list as [|t l]; [done|].
  destruct (foldM _ _ (t :: l)) as [e|[matrix total]] eqn:Hrows; [done|].
  apply rows_loop in Hrows as [-> ->]. simpl app.
  cbn [mbind error_bind].
  destruct (mapM _ _) as [e|scores] eqn:Hscores; [done|].
  apply mapM_length in Hscores. cbn [mbind error_bind].
  destruct (get_heatmap_data self (slice_to _ _) _)
    as [e|[most_hm most]] eqn:Hmost; [done|].
  cbn [mbind error_bind].
  destruct (get_heatmap_data self (slice_from _ _) _)
    as [e|[least_hm least]] eqn:Hleast; [done|].
  cbn [mbind error_bind mret error_ret]. intros [= <-]. simpl.
  apply heatmap_labels_length in Hmost, Hleast.
  rewrite Hmost, Hleast, slice_to_length, slice_from_neg_length by done.
  by rewrite index_sort_length, Hscores.
Qed.

End page.

Lemma fdiv_nonzero (x y : R) : y ≠ 0%R → fdiv x y = inr (x / y)%R.
Proof. intros Hy. unfold fdiv. by destruct (Req_dec_T y 0). Qed.

Lemma fdiv_zero (x : R) : fdiv x 0 = inl ZeroDivisionError.
Proof. unfold fdiv. by destruct (Req_dec_T 0 0). Qed.

Lemma odds_sum_positive (l : list (string * R * nat)) :
  l ≠ [] → Forall (λ t, 0 < t.1.2)%R l → (0 < odds_sum l)%R.
Proof.
  intros Hne Hall. destruct Hall as [|t l Ht Hall]; [done|]. clear Hne.
  unfold Pandas.Rsum, fmap. simpl.
  assert (0 <= foldr Rplus 0 (list_fmap _ _ (λ t, t.1.2) l))%R; [|lra].
  induction Hall as [|t' l Ht' _ IH]; simpl; lra.
Qed.

Section score.
Context (gene_odds_ratio_list : list (string * R * nat))
        (sum_odds_ratios : R).

Lemma score_loop_returns (sample_data : list R) (k : nat) (score : R) :
  sum_odds_ratios ≠ 0%R →
  k + length sample_data ≤ length gene_odds_ratio_list →
  ∃ s, foldM (sample_score_step gene_odds_ratio_list sum_odds_ratios) score
         (imap (λ i, pair (k + i)) sample_data) = inr s.
Proof.
  intros Hsum. revert k score.
  induction sample_data as [|x sample_data IH]; intros k score Hlen.
  - by eexists.
  - simpl in Hlen.
    destruct (lookup_lt_is_Some_2 gene_odds_ratio_list k) as [[[n o] b] Hk];
      [lia|].
    simpl imap. cbn [foldM]. rewrite Nat.add_0_r.
    assert (Hstep : sample_score_step gene_odds_ratio_list sum_odds_ratios
                      score (k, x)
                    = inr (score + o / sum_odds_ratios * x)%R).
    { unfold sample_score_step. rewrite Hk. cbn [mbind error_bind].
      by rewrite fdiv_nonzero. }
    rewrite Hstep. cbn [mbind error_bind].
    rewrite (imap_ext _ (λ i, pair (S k + i)))
      by (intros; simpl; by rewrite Nat.add_succ_r).
    apply IH. lia.
Qed.

Lemma score_loop_IndexError (sample_data : list R) (k : nat) (score : R) :
  sum_odds_ratios ≠ 0%R → k ≤ length gene_odds_ratio_list →
  length gene_odds_ratio_list < k + length sample_data →
  foldM (sample_score_step gene_odds_ratio_list sum_odds_ratios) score
    (imap (λ i, pair (k + i)) sample_data) = inl IndexError.
Proof.
  intros Hsum. revert k score.
  induction sample_data as [|x sample_data IH]; intros k score Hk Hlen.
  - simpl in Hlen. lia.
  - simpl in Hlen. simpl imap. cbn [foldM]. rewrite Nat.add_0_r.
    destruct (gene_odds_ratio_list !! k) as [[[n o] b]|] eqn:Hlook.
    + assert (Hstep : sample_score_step gene_odds_ratio_list sum_odds_ratios
                        score (k, x)
                      = inr (score + o / sum_odds_ratios * x)%R).
      { unfold sample_score_step. rewrite Hlook. cbn [mbind error_bind].
        by rewrite fdiv_nonzero. }
      rewrite Hstep. cbn [mbind error_bind].
      rewrite (imap_ext _ (λ i, pair (S k + i)))
        by (intros; simpl; by rewrite Nat.add_succ_r).
      apply lookup_lt_Some in Hlook. apply IH; lia.
    + unfold sample_score_step. by rewrite Hlook.
Qed.

End score.

(** X22.  The inner loop of [_edge_page_data] returns a score exactly when
    the sample has no values, or [sum_odds_ratios] is not 0 and the sample
    has no more values than there are genes.  Otherwise it raises: with
    values and no genes [IndexError]; with values, genes and a sum of 0
    [ZeroDivisionError], at the first value; with a sum other than 0 and
    more values than genes [IndexError]. *)
Theorem sample_score_errors
    (gene_odds_ratio_list : list (string * R * nat))
    (sum_odds_ratios : R) (sample_data : list R) :
  (sample_data = [] →
   sample_score gene_odds_ratio_list sum_odds_ratios sample_data = inr 0%R)
  ∧ (sample_data ≠ [] → gene_odds_ratio_list = [] →
     sample_score gene_odds_ratio_list sum_odds_ratios sample_data
     = inl IndexError)
  ∧ (sample_data ≠ [] → gene_odds_ratio_list ≠ [] → sum_odds_ratios = 0%R →
     sample_score gene_odds_ratio_list sum_odds_ratios sample_data
     = inl ZeroDivisionError)
  ∧ (sum_odds_ratios ≠ 0%R →
     if decide (length sample_data ≤ length gene_odds_ratio_list)
     then ∃ score,
            sample_score gene_odds_ratio_list sum_odds_ratios sample_data
            = inr score
     else sample_score gene_odds_ratio_list sum_odds_ratios sample_data
          = inl IndexError).
Proof.
  unfold sample_score, enumerate. split_and!.
  - by intros ->.
  - intros Hne ->. by destruct sample_data.
  - intros Hne Hgenes ->. destruct sample_data as [|x sample_data]; [done|].
    destruct gene_odds_ratio_list as [|[[n o] b] rest]; [done|].
    simpl. unfold sample_score_step. simpl. by rewrite fdiv_zero.
  - intros Hsum. case_decide.
    + apply (score_loop_returns _ _ sample_data 0 0%R Hsum). simpl. lia.
    + apply (score_loop_IndexError _ _ sample_data 0 0%R Hsum); simpl; lia.
Qed.

Section odds.
Context (self : EdgeInfo) (which_pathway : gmap N nat).

Lemma above_one_loop (odds_ratios : list (N * R)) acc above :
  foldM (above_one_step self which_pathway) acc odds_ratios = inr above →
  Forall (λ t : string * R * nat, 1 < t.1.2)%R acc →
  Forall (λ t : string * R * nat, 1 < t.1.2)%R above.
Proof.
  revert acc. induction odds_ratios as [|[gene_id odds] l IH]; intros acc.
  - simpl. by intros [= <-].
  - simpl. destruct (Rlt_dec 1 odds) as [Hlt|Hge]; [|apply IH].
    destruct (find_gene_by_id (db self) gene_id) as [doc|]; [|done]. simpl.
    destruct (which_pathway !! gene_id) as [owner|]; [|done]. simpl.
    intros Hrest Hacc. apply (IH _ Hrest).
    apply Forall_app. split; [done|]. by repeat constructor.
Qed.

Lemma StronglySorted_take {X} (rel : relation X) (l : list X) n :
  StronglySorted rel l → StronglySorted rel (take n l).
Proof.
  intros Hl. revert n. induction Hl as [|x l Hl IH Hx]; intros [|n]; simpl;
    try constructor; [done|]. by apply Forall_take.
Qed.

Lemma slice_to_take {X} (k : Z) (l : list X) : ∃ n, slice_to k l = take n l.
Proof. unfold slice_to. destruct (0 <=? k)%Z; eauto. Qed.

(** X23.  When [_edge_pathway_annotation_odds_ratios] returns, every gene
    of the result has an odds ratio above 1, the genes are in descending
    order of their odds ratios, and for [keep_n_genes >= 0] there are at
    most [keep_n_genes] of them. *)
Theorem odds_ratios_above_one_sorted
    (n_features_contain_edge : nat) (count_gene_edge_common : list (N * nat))
    (result : list (string * R * nat)) :
  edge_pathway_annotation_odds_ratios self which_pathway
    n_features_contain_edge count_gene_edge_common = inr result →
  Forall (λ t, 1 < t.1.2)%R result
  ∧ StronglySorted (λ a b, a.1.2 >= b.1.2)%R result
  ∧ ((0 <= keep_n_genes self)%Z
     → (Z.of_nat (length result) <= keep_n_genes self)%Z).
Proof.
  unfold edge_pathway_annotation_odds_ratios.
  destruct (fdiv _ _) as [e|denominator]; [done|]. cbn [mbind error_bind].
  destruct (foldM (odds_ratio_step _ _) _ _) as [e|odds]; [done|].
  cbn [mbind error_bind].
  destruct (foldM (above_one_step _ _) _ _) as [e|above] eqn:Habove; [done|].
  cbn [mbind error_bind mret error_ret]. intros [= <-].
  apply above_one_loop in Habove; [|constructor].
  split_and!.
  - destruct (slice_to_take
                (Z.of_nat (length (sorted_descending
                                     (λ t : string * R * nat, t.1.2) above))
                 `min` keep_n_genes self)
                (sorted_descending (λ t : string * R * nat, t.1.2) above))
      as [n ->].
    apply Forall_take. by rewrite sorted_descending_Permutation.
  - destruct (slice_to_take
                (Z.of_nat (length (sorted_descending
                                     (λ t : string * R * nat, t.1.2) above))
                 `min` keep_n_genes self)
                (sorted_descending (λ t : string * R * nat, t.1.2) above))
      as [n ->].
    apply StronglySorted_take, sorted_descending_sorted.
  - intros Hkeep. rewrite slice_to_length by lia. lia.
Qed.

Local Abbreviation skipped := (skipped self).

Lemma odds_ratio_step_skipped denominator acc entry :
  skipped entry → odds_ratio_step self denominator acc entry = inr acc.
Proof.
  destruct entry as [gene_id count]. intros [Hc Hn]. simpl in *.
  unfold odds_ratio_step. by rewrite Hc, Hn.
Qed.

Lemma odds_ratio_step_zero acc entry :
  ¬ skipped entry → odds_ratio_step self 0 acc entry = inl ZeroDivisionError.
Proof.
  destruct entry as [gene_id count]. unfold skipped, odds_ratio_step. simpl.
  intros Hnot.
  destruct ((count =? 0) && (signatures_with_gene (db self) gene_id =? 0))
    eqn:Hboth.
  { apply andb_prop in Hboth as [Hc%Nat.eqb_eq Hn%Nat.eqb_eq]. tauto. }
  destruct (fdiv (INR count) _) as [e|numerator] eqn:Hnum.
  - unfold fdiv in Hnum. destruct (Req_dec_T _ 0); by simplify_eq.
  - cbn [mbind error_bind]. by rewrite fdiv_zero.
Qed.

(** X24.  [_edge_pathway_annotation_odds_ratios] raises
    [ZeroDivisionError] when the total number of features is 0.  When the
    edge is in no feature, it raises [ZeroDivisionError] as soon as one
    gene of the edge was counted or is in some signature, and returns the
    empty list otherwise. *)
Theorem odds_ratios_zero_division
    (n_features_contain_edge : nat) (count_gene_edge_common : list (N * nat)) :
  (n_total_features self = 0%Z →
   edge_pathway_annotation_odds_ratios self which_pathway
     n_features_contain_edge count_gene_edge_common
   = inl ZeroDivisionError)
  ∧ (n_total_features self ≠ 0%Z → n_features_contain_edge = 0 →
     edge_pathway_annotation_odds_ratios self which_pathway
       n_features_contain_edge count_gene_edge_common
     = if decide (Forall skipped count_gene_edge_common) then inr []
       else inl ZeroDivisionError).
Proof.
  unfold edge_pathway_annotation_odds_ratios. split.
  - intros ->. by rewrite fdiv_zero.
  - intros Htotal ->. rewrite fdiv_nonzero by by apply not_0_IZR.
    cbn [mbind error_bind]. simpl INR.
    replace (0 / IZR (n_total_features self))%R with 0%R
      by (unfold Rdiv; ring).
    assert (Hloop : ∀ acc,
      foldM (odds_ratio_step self 0) acc count_gene_edge_common
      = if decide (Forall skipped count_gene_edge_common) then inr acc
        else inl ZeroDivisionError).
    { induction count_gene_edge_common as [|entry l IH]; intros acc.
      - cbn [foldM]. by rewrite decide_True by constructor.
      - cbn [foldM].
        destruct (decide (skipped entry)) as [Hs|Hs].
        + rewrite odds_ratio_step_skipped by done. cbn [mbind error_bind].
          rewrite IH. repeat case_decide; try done.
          * exfalso. match goal with H : ¬ _ |- _ => apply H end.
            by constructor.
          * exfalso. match goal with H : ¬ Forall _ l |- _ => apply H end.
            by eapply Forall_cons_1.
        + rewrite odds_ratio_step_zero by done. cbn [mbind error_bind].
          rewrite decide_False; [done|]. by intros [? _]%Forall_cons_1. }
    rewrite Hloop. case_decide; [|done].
    cbn [mbind error_bind foldM mret error_ret sorted_descending foldr].
    unfold slice_to. by destruct (0 <=? _)%Z; rewrite take_nil.
Qed.

End odds.

(** X25.  The list that [_edge_pathway_annotation_odds_ratios] returns can
    be handed to [_edge_page_data] without a division by zero: the odds
    ratios are above 1, so their sum is not 0. *)
Theorem edge_page_data_no_zero_division
    (self : EdgeInfo) (which_pathway : gmap N nat)
    (n_features_contain_edge : nat) (count_gene_edge_common : list (N * nat))
    (gene_odds_ratio_list : list (string * R * nat)) :
  edge_pathway_annotation_odds_ratios self which_pathway
    n_features_contain_edge count_gene_edge_common
  = inr gene_odds_ratio_list →
  edge_page_data self gene_odds_ratio_list ≠ inl ZeroDivisionError.
Proof.
  intros Hodds.
  assert (Hall : Forall (λ t, 0 < t.1.2)%R gene_odds_ratio_list).
  { unfold edge_pathway_annotation_odds_ratios in Hodds.
    destruct (fdiv _ _) as [e|denominator]; [done|].
    cbn [mbind error_bind] in Hodds.
    destruct (foldM (odds_ratio_step _ _) _ _) as [e|odds]; [done|].
    cbn [mbind error_bind] in Hodds.
    destruct (foldM (above_one_step _ _) _ _) as [e|above] eqn:Habove;
      [done|].
    cbn [mbind error_bind mret error_ret] in Hodds.
    injection Hodds as <-.
    apply above_one_loop in Habove; [|constructor].
    match goal with |- Forall _ (slice_to ?k ?l) =>
      destruct (slice_to_take k l) as [n ->] end.
    apply Forall_take. rewrite sorted_descending_Permutation.
    eapply Forall_impl; [exact Habove|]. simpl. intros t Ht. lra. }
  clear Hodds. unfold edge_page_data.
  destruct gene_odds_ratio_list as [|t l] eqn:Hl; [done|]. rewrite <- Hl in *.
  assert (Hne : gene_odds_ratio_list ≠ []) by by rewrite Hl.
  clear Hl.
  destruct (foldM (expression_row_step self) _ _)
    as [e|[matrix total]] eqn:Hrows.
  { cbn [mbind error_bind]. intros [= ->].
    revert Hrows. apply foldM_not. intros [m s] [[name odds] owner]. simpl.
    by destruct (find_gene_by_name (db self) name). }
  apply rows_loop in Hrows as [-> ->]. cbn [mbind error_bind].
  pose proof (odds_sum_positive _ Hne Hall) as Hsum.
  destruct (mapM _ _) as [e|scores] eqn:Hscores.
  { cbn [mbind error_bind]. intros [= ->]. revert Hscores.
    apply mapM_not. intros sample_data. unfold sample_score.
    apply foldM_not. intros score [index x]. unfold sample_score_step.
    destruct (gene_odds_ratio_list !! index) as [[[? odds] ?]|]; [|done].
    cbn [mbind error_bind]. by rewrite fdiv_nonzero by lra. }
  cbn [mbind error_bind].
  assert (Hheat : ∀ entries matrix,
            get_heatmap_data self entries matrix ≠ inl ZeroDivisionError).
  { intros entries matrix. unfold get_heatmap_data. apply foldM_not.
    intros [hm labels] [rank [index score]]. simpl.
    destruct (sample_labels (db self) !! index); [|done]. simpl.
    by destruct (matrix !! index). }
  destruct (get_heatmap_data self (slice_to _ _) _)
    as [e|[most_hm most]] eqn:Hmost.
  { cbn [mbind error_bind]. intros [= ->]. by apply Hheat in Hmost. }
  cbn [mbind error_bind].
  destruct (get_heatmap_data self (slice_from _ _) _)
    as [e|[least_hm least]] eqn:Hleast.
  { cbn [mbind error_bind]. intros [= ->]. by apply Hheat in Hleast. }
  done.
Qed.

End EdgePageFacts.

Module EdgePageExamples.
Import EdgePage SortFacts HeatmapFacts EdgePageFacts.

(** The example database, for the edge of one gene that is in one feature
    out of two. *)
Lemma example_odds :
  edge_pathway_annotation_odds_ratios example_edge_info (<[1%N := 0]> ∅) 1
    [(1%N, 1)]
  = inr [("PA0001", (INR 1 / INR 1 / (INR 1 / 2))%R, 0)].
Proof.
  unfold edge_pathway_annotation_odds_ratios.
  rewrite fdiv_nonzero by (simpl; lra). cbn [mbind error_bind foldM].
  unfold odds_ratio_step.
  cbn [Nat.eqb andb signatures_with_gene db example_edge_info
       example_database n_total_features].
  rewrite fdiv_nonzero by (simpl; lra). cbn [mbind error_bind].
  rewrite fdiv_nonzero by (simpl; lra).
  cbn [mbind error_bind mret error_ret dict_set foldM].
  unfold above_one_step.
  destruct (Rlt_dec 1 (INR 1 / INR 1 / (INR 1 / 2))) as [_|Hnot];
    [|exfalso; apply Hnot; simpl; lra].
  reflexivity.
Qed.

Lemma example_page :
  ∃ p, edge_page_data example_edge_info
         [("PA0001", (INR 1 / INR 1 / (INR 1 / 2))%R, 0)] = inr (Page p)
       ∧ most_expressed_samples p = []
       ∧ least_expressed_samples p = ["sample_0"].
Proof.
  unfold edge_page_data. cbn [foldM expression_row_step].
  change (find_gene_by_name (db example_edge_info) "PA0001")
    with (Some {| gene_id := 1; gene := "PA0001"; common_name := None;
                  expression := [5%R] |}).
  cbn [mbind error_bind app expression zip_star fmap list_fmap mapM].
  unfold sample_score, enumerate. cbn [imap foldM sample_score_step lookup
    list_lookup].
  cbn [mbind error_bind]. rewrite fdiv_nonzero by (simpl; lra).
  cbn [mbind error_bind mret error_ret].
  eexists. split; [reflexivity|]. split; reflexivity.
Qed.

Lemma edge_page_data_sample_counts_witness :
  (0 <= keep_n_samples example_edge_info)%Z
  ∧ ∃ p, edge_page_data example_edge_info
           [("PA0001", (INR 1 / INR 1 / (INR 1 / 2))%R, 0)] = inr (Page p)
         ∧ length (most_expressed_samples p) = 0
         ∧ length (least_expressed_samples p)
           = n_samples example_edge_info
               [("PA0001", (INR 1 / INR 1 / (INR 1 / 2))%R, 0)].
Proof.
  assert (Hkeep : (0 <= keep_n_samples example_edge_info)%Z)
    by (simpl; lia).
  split; [exact Hkeep|].
  destruct example_page as (p & Hp & _). exists p. split; [exact Hp|].
  exact (edge_page_data_sample_counts example_edge_info _ p Hkeep Hp).
Defined.

Lemma odds_ratios_above_one_sorted_witness :
  ∃ result,
    edge_pathway_annotation_odds_ratios example_edge_info (<[1%N := 0]> ∅) 1
      [(1%N, 1)] = inr result
    ∧ Forall (λ t, 1 < t.1.2)%R result.
Proof.
  eexists. split; [exact example_odds|].
  exact (proj1 (odds_ratios_above_one_sorted example_edge_info _ _ _ _
                  example_odds)).
Defined.

Lemma edge_page_data_no_zero_division_witness :
  ∃ gene_odds_ratio_list,
    edge_pathway_annotation_odds_ratios example_edge_info (<[1%N := 0]> ∅) 1
      [(1%N, 1)] = inr gene_odds_ratio_list
    ∧ edge_page_data example_edge_info gene_odds_ratio_list
      ≠ inl ZeroDivisionError.
Proof.
  eexists. split; [exact example_odds|].
  exact (edge_page_data_no_zero_division example_edge_info _ _ _ _
           example_odds).
Defined.

End EdgePageExamples.
